(** * RecursiveSpider: the recursive directory downloader of [dump.py]

    A shallow embedding of [RecursiveDirectoryDownloader] and the properties
    its specification states about it.

    - A Python [str] is a [string] whose characters are the code points below
      256; the [str] methods the program calls are in [Module Str].
    - [urllib.parse], [ipaddress] and [posixpath] are library code; the parts
      the program calls are modelled in [Module Url] and [Module OsPath], after
      CPython 3.11, with the [ValueError] that [urlsplit] raises.
    - The three tracking sets are [gset string]; the work queue is a list of
      [(file_url, local_path)] pairs in FIFO order.
    - The operating system, the HTTP session and the HTML parser are the
      collaborators of the program: an interface ([Collaborators]) whose
      operations may raise.  Statements are proved for every implementation
      of the interface; [mock] is one implementation, used to run scenarios. *)

From Stdlib Require Import Ascii Bool Arith Lia.
From stdpp Require Import base option list strings gmap sets.

Set Warnings "-clear-no-such-hyp".

(** ** Python [str] methods *)

Module Str.

(** [s.startswith(p)] *)
Fixpoint startswith (s p : string) {struct p} : bool :=
  match p with
  | EmptyString => true
  | String a p' =>
      match s with
      | EmptyString => false
      | String b s' => if Ascii.eqb b a then startswith s' p' else false
      end
  end.

(** [s.endswith(p)]: some suffix of [s] is [p]. *)
Fixpoint endswith (s p : string) : bool :=
  String.eqb s p ||
  match s with
  | EmptyString => false
  | String _ s' => endswith s' p
  end.

(** [p in s] for strings. *)
Fixpoint contains (p s : string) : bool :=
  startswith s p ||
  match s with
  | EmptyString => false
  | String _ s' => contains p s'
  end.

(** [s.lstrip(c)] for a one-character set. *)
Fixpoint lstrip (c : ascii) (s : string) : string :=
  match s with
  | EmptyString => EmptyString
  | String a s' => if Ascii.eqb a c then lstrip c s' else s
  end.

(** [s.rstrip(c)] for a one-character set. *)
Fixpoint rstrip (c : ascii) (s : string) : string :=
  match s with
  | EmptyString => EmptyString
  | String a s' =>
      match rstrip c s' with
      | EmptyString => if Ascii.eqb a c then EmptyString else String a EmptyString
      | r => String a r
      end
  end.

(** [str.isspace] on the code points below 256: TAB, LF, VT, FF, CR, FS,
    GS, RS, US, the space, NEL (133) and the no-break space (160). *)
Definition isspace (a : ascii) : bool :=
  let n := nat_of_ascii a in
  (Nat.leb 9 n && Nat.leb n 13) || (Nat.leb 28 n && Nat.leb n 32)
  || Nat.eqb n 133 || Nat.eqb n 160.

Fixpoint lstrip_ws (s : string) : string :=
  match s with
  | EmptyString => EmptyString
  | String a s' => if isspace a then lstrip_ws s' else s
  end.

Fixpoint rstrip_ws (s : string) : string :=
  match s with
  | EmptyString => EmptyString
  | String a s' =>
      match rstrip_ws s' with
      | EmptyString => if isspace a then EmptyString else String a EmptyString
      | r => String a r
      end
  end.

(** [s.strip()] *)
Definition strip (s : string) : string := rstrip_ws (lstrip_ws s).

(** [s[:-1]] *)
Fixpoint drop_last (s : string) : string :=
  match s with
  | EmptyString => EmptyString
  | String a EmptyString => EmptyString
  | String a s' => String a (drop_last s')
  end.

(** The scan of [s.replace(old, new)] for a non-empty [old]: left to
    right, non-overlapping, never looking again at what it has produced.
    [skip] counts the characters of the current match still to be
    dropped. *)
Fixpoint replace_scan (old new : string) (skip : nat) (s : string) : string :=
  match s with
  | EmptyString => EmptyString
  | String a s' =>
      match skip with
      | S k => replace_scan old new k s'
      | O =>
          if startswith s old
          then new +:+ replace_scan old new (String.length old - 1) s'
          else String a (replace_scan old new 0 s')
      end
  end.

(** With an empty [old], Python puts [new] before every character and at
    the end. *)
Fixpoint interleave (new s : string) : string :=
  match s with
  | EmptyString => new
  | String a s' => new +:+ String a (interleave new s')
  end.

(** [s.replace(old, new)] *)
Definition replace (s old new : string) : string :=
  match old with
  | EmptyString => interleave new s
  | _ => replace_scan old new 0 s
  end.

(** [s.split(c)] for a one-character separator: never the empty list. *)
Fixpoint split (c : ascii) (s : string) : list string :=
  match s with
  | EmptyString => [EmptyString]
  | String a s' =>
      if Ascii.eqb a c then EmptyString :: split c s'
      else match split c s' with
           | [] => [String a EmptyString]
           | w :: ws => String a w :: ws
           end
  end.

(** [sep.join(l)] *)
Fixpoint join (sep : string) (l : list string) : string :=
  match l with
  | [] => EmptyString
  | [w] => w
  | w :: ws => w +:+ sep +:+ join sep ws
  end.

(** [s.partition(c)] as [(before, Some after)], or [(s, None)] when [c]
    does not occur. *)
Fixpoint cut (c : ascii) (s : string) : string * option string :=
  match s with
  | EmptyString => (EmptyString, None)
  | String a s' =>
      if Ascii.eqb a c then (EmptyString, Some s')
      else let '(h, t) := cut c s' in (String a h, t)
  end.

(** [s.rpartition(c)] as [(Some before, after)], or [(None, s)]. *)
Fixpoint rcut (c : ascii) (s : string) : option string * string :=
  match s with
  | EmptyString => (None, EmptyString)
  | String a s' =>
      match rcut c s' with
      | (Some h, t) => (Some (String a h), t)
      | (None, t) =>
          if Ascii.eqb a c then (Some EmptyString, t) else (None, String a t)
      end
  end.

Definition lower_char (a : ascii) : ascii :=
  let n := nat_of_ascii a in
  if Nat.leb 65 n && Nat.leb n 90 then ascii_of_nat (n + 32) else a.

(** [s.lower()] on the ASCII range. *)
Fixpoint lower (s : string) : string :=
  match s with
  | EmptyString => EmptyString
  | String a s' => String (lower_char a) (lower s')
  end.

Fixpoint forallb (f : ascii -> bool) (s : string) : bool :=
  match s with
  | EmptyString => true
  | String a s' => f a && forallb f s'
  end.

(** Python truthiness of a string. *)
Definition nonempty (s : string) : bool :=
  match s with EmptyString => false | _ => true end.

End Str.

(** ** [posixpath] *)

Module OsPath.

(** [os.path.join(a, p)]: an absolute [p] discards [a]. *)
Definition join (a p : string) : string :=
  if Str.startswith p "/" then p
  else if negb (Str.nonempty a) || Str.endswith a "/" then a +:+ p
  else a +:+ "/" +:+ p.

(** [os.path.dirname(p)]: everything up to the last slash, without its
    trailing slashes unless it consists of slashes only. *)
Definition dirname (p : string) : string :=
  match Str.rcut "/" p with
  | (None, _) => EmptyString
  | (Some h, _) =>
      let head := h +:+ "/" in
      if Str.nonempty (Str.lstrip "/" head) then Str.rstrip "/" head else head
  end.

(** [os.path.basename(p)] *)
Definition basename (p : string) : string := snd (Str.rcut "/" p).

End OsPath.

(** ** [urllib.parse]

    [urlsplit], [urlparse], [urlunparse] and [urljoin] as in CPython 3.11:
    [urlsplit] drops leading control characters and spaces, deletes TAB, CR
    and LF, and raises [ValueError] ([None]) on a network location whose
    brackets do not hold an IPv6 or IPvFuture address.  The NFKC check of
    [_checknetloc] rejects no string of code points below 256 and is left
    out. *)

Module Url.

Record ParseResult := mkParseResult {
  scheme : string;
  netloc : string;
  path : string;
  params : string;
  query : string;
  fragment : string
}.

Definition uses_relative : list string :=
  [""; "ftp"; "http"; "gopher"; "nntp"; "imap"; "wais"; "file"; "https";
   "shttp"; "mms"; "prospero"; "rtsp"; "rtspu"; "sftp"; "svn"; "svn+ssh";
   "ws"; "wss"].

Definition uses_netloc : list string :=
  [""; "ftp"; "http"; "gopher"; "nntp"; "telnet"; "imap"; "wais"; "file";
   "mms"; "https"; "shttp"; "snews"; "prospero"; "rtsp"; "rtspu"; "rsync";
   "svn"; "svn+ssh"; "sftp"; "nfs"; "git"; "git+ssh"; "ws"; "wss"].

Definition uses_params : list string :=
  [""; "ftp"; "hdl"; "prospero"; "http"; "imap"; "https"; "shttp"; "rtsp";
   "rtspu"; "sip"; "sips"; "mms"; "sftp"; "tel"].

Definition mem (s : string) (l : list string) : bool :=
  existsb (String.eqb s) l.

Definition isalpha (a : ascii) : bool :=
  let n := nat_of_ascii a in
  (Nat.leb 65 n && Nat.leb n 90) || (Nat.leb 97 n && Nat.leb n 122).

Definition isdigit (a : ascii) : bool :=
  let n := nat_of_ascii a in Nat.leb 48 n && Nat.leb n 57.

(** Letters, digits and [+-.] *)
Definition scheme_char (a : ascii) : bool :=
  isalpha a || isdigit a ||
  Ascii.eqb a "+" || Ascii.eqb a "-" || Ascii.eqb a ".".

(** [_WHATWG_C0_CONTROL_OR_SPACE]: the characters up to the space. *)
Definition c0_control_or_space (a : ascii) : bool := Nat.leb (nat_of_ascii a) 32.

Fixpoint lstrip_c0 (s : string) : string :=
  match s with
  | EmptyString => EmptyString
  | String a s' => if c0_control_or_space a then lstrip_c0 s' else s
  end.

Fixpoint rstrip_c0 (s : string) : string :=
  match s with
  | EmptyString => EmptyString
  | String a s' =>
      match rstrip_c0 s' with
      | EmptyString => if c0_control_or_space a then EmptyString else String a EmptyString
      | r => String a r
      end
  end.

Definition strip_c0 (s : string) : string := rstrip_c0 (lstrip_c0 s).

(** [for b in _UNSAFE_URL_BYTES_TO_REMOVE: url = url.replace(b, "")]: TAB,
    CR and LF. *)
Definition remove_unsafe (s : string) : string :=
  Str.replace
    (Str.replace (Str.replace s (String "009" "") "") (String "013" "") "")
    (String "010" "") "".

(** *** [ipaddress]: is the string an address *)

Definition hex_digit (a : ascii) : bool :=
  let n := nat_of_ascii a in
  isdigit a || (Nat.leb 65 n && Nat.leb n 70) || (Nat.leb 97 n && Nat.leb n 102).

(** [int(s, 10)] of a string of digits. *)
Fixpoint decimal (acc : nat) (s : string) : nat :=
  match s with
  | EmptyString => acc
  | String a s' => decimal (10 * acc + (nat_of_ascii a - 48)) s'
  end.

(** [_parse_octet] does not raise. *)
Definition octet (s : string) : bool :=
  if Str.nonempty s
     && Str.forallb isdigit s
     && Nat.leb (String.length s) 3
     && (String.eqb s "0" || negb (Str.startswith s "0"))
  then Nat.leb (decimal 0 s) 255
  else false.

(** [IPv4Address(s)] does not raise. *)
Definition ipv4 (s : string) : bool :=
  negb (Str.contains "/" s)
  && Str.nonempty s
  && Nat.eqb (length (Str.split "." s)) 4
  && forallb octet (Str.split "." s).

(** [_parse_hextet] does not raise. *)
Definition hextet (s : string) : bool :=
  Str.forallb hex_digit s && Nat.leb (String.length s) 4 && Str.nonempty s.

(** The indexes of the empty strings of [parts], counted from [i]. *)
Fixpoint empty_at (i : nat) (parts : list string) : list nat :=
  match parts with
  | [] => []
  | p :: rest =>
      if Str.nonempty p then empty_at (S i) rest else i :: empty_at (S i) rest
  end.

(** [IPv6Address._ip_int_from_string] on the parts between the colons,
    once an IPv4 suffix has been turned into two hextets. *)
Definition hextets (parts : list string) : bool :=
  Nat.leb (length parts) 9
  &&
  match empty_at 1 (removelast (tail parts)) with
  | [] =>
      Nat.eqb (length parts) 8
      && Str.nonempty (hd EmptyString parts)
      && Str.nonempty (List.last parts EmptyString)
      && forallb hextet parts
  | [skip_index] =>
      let parts_hi := skip_index in
      let parts_lo := length parts - skip_index - 1 in
      let leading := negb (Str.nonempty (hd EmptyString parts)) in
      let trailing := negb (Str.nonempty (List.last parts EmptyString)) in
      let parts_hi := if leading then parts_hi - 1 else parts_hi in
      let parts_lo := if trailing then parts_lo - 1 else parts_lo in
      negb (leading && Nat.ltb 0 parts_hi)
      && negb (trailing && Nat.ltb 0 parts_lo)
      && Nat.leb (parts_hi + parts_lo) 7
      && forallb hextet (firstn parts_hi parts)
      && forallb hextet (skipn (length parts - parts_lo) parts)
  | _ => false
  end.

(** [IPv6Address(s)] does not raise. *)
Definition ipv6 (s : string) : bool :=
  negb (Str.contains "/" s)
  &&
  let '(addr, scope_id) := Str.cut "%" s in
  match scope_id with
  | Some scope => Str.nonempty scope && negb (Str.contains "%" scope)
  | None => true
  end
  && Str.nonempty addr
  &&
  let parts := Str.split ":" addr in
  Nat.leb 3 (length parts)
  &&
  if Str.contains "." (List.last parts EmptyString)
  then ipv4 (List.last parts EmptyString)
       && hextets (removelast parts ++ ["0"; "0"])
  else hextets parts.

Fixpoint drop_hex_digits (s : string) : string :=
  match s with
  | EmptyString => EmptyString
  | String a s' => if hex_digit a then drop_hex_digits s' else s
  end.

(** [re.match(r"\Av[a-fA-F0-9]+\..+\Z", s)] *)
Definition ipvfuture (s : string) : bool :=
  match s with
  | String "v" (String a rest) =>
      hex_digit a
      &&
      match drop_hex_digits rest with
      | String "." after =>
          Str.nonempty after && negb (Str.contains (String "010" "") after)
      | _ => false
      end
  | _ => false
  end.

(** [_check_bracketed_host] does not raise. *)
Definition check_bracketed_host (hostname : string) : bool :=
  if Str.startswith hostname "v" then ipvfuture hostname
  else negb (ipv4 hostname) && ipv6 hostname.

(** [_check_bracketed_netloc] does not raise. *)
Definition check_bracketed_netloc (netloc : string) : bool :=
  let hostname_and_port := snd (Str.rcut "@" netloc) in
  match Str.cut "[" hostname_and_port with
  | (before_bracket, Some bracketed) =>
      negb (Str.nonempty before_bracket)
      &&
      let '(hostname, port) := Str.cut "]" bracketed in
      match port with
      | Some (String a _) => Ascii.eqb a ":"
      | _ => true
      end
      && check_bracketed_host hostname
  | (_, None) => check_bracketed_host (fst (Str.cut ":" hostname_and_port))
  end.

(** *** Splitting and joining *)

(** [_splitnetloc(url, 2)] on what follows the two slashes: the network
    location runs up to the first of [/], [?] and [#]. *)
Fixpoint splitnetloc (s : string) : string * string :=
  match s with
  | EmptyString => (EmptyString, EmptyString)
  | String a s' =>
      if Ascii.eqb a "/" || Ascii.eqb a "?" || Ascii.eqb a "#"
      then (EmptyString, s)
      else let '(n, r) := splitnetloc s' in (String a n, r)
  end.

(** The checks of [urlsplit] on the network location do not raise. *)
Definition netloc_accepted (netloc : string) : bool :=
  let opens := Str.contains "[" netloc in
  let closes := Str.contains "]" netloc in
  negb ((opens && negb closes) || (closes && negb opens))
  && (negb (opens && closes) || check_bracketed_netloc netloc).

(** [urlsplit(url, scheme)] as (scheme, netloc, path, query, fragment), or
    [None] for [ValueError]. *)
Definition urlsplit (url default_scheme : string)
  : option (string * string * string * string * string) :=
  let url := lstrip_c0 url in
  let scheme := strip_c0 default_scheme in
  let url := remove_unsafe url in
  let scheme := remove_unsafe scheme in
  let '(scheme, url) :=
    match Str.cut ":" url with
    | (String a h, Some rest) =>
        if isalpha a && Str.forallb scheme_char (String a h)
        then (Str.lower (String a h), rest)
        else (scheme, url)
    | _ => (scheme, url)
    end in
  let '(netloc, url) :=
    match url with
    | String "/" (String "/" rest) => splitnetloc rest
    | _ => (EmptyString, url)
    end in
  if negb (netloc_accepted netloc) then None
  else
    let '(url, fragment) :=
      match Str.cut "#" url with
      | (h, Some t) => (h, t)
      | (h, None) => (h, EmptyString)
      end in
    let '(url, query) :=
      match Str.cut "?" url with
      | (h, Some t) => (h, t)
      | (h, None) => (h, EmptyString)
      end in
    Some (scheme, netloc, url, query, fragment).

(** [_splitparams(url)]: the parameters of the last path segment. *)
Definition splitparams (url : string) : string * string :=
  match Str.rcut "/" url with
  | (Some h, last) =>
      match Str.cut ";" last with
      | (l, Some p) => (h +:+ "/" +:+ l, p)
      | (_, None) => (url, EmptyString)
      end
  | (None, _) =>
      match Str.cut ";" url with
      | (l, Some p) => (l, p)
      | (_, None) => (url, EmptyString)
      end
  end.

(** [urlparse(url, scheme)], or [None] for [ValueError]. *)
Definition urlparse_with (url default_scheme : string) : option ParseResult :=
  match urlsplit url default_scheme with
  | None => None
  | Some (scheme, netloc, url, query, fragment) =>
      let '(url, params) :=
        if mem scheme uses_params && Str.contains ";" url
        then splitparams url else (url, EmptyString) in
      Some (mkParseResult scheme netloc url params query fragment)
  end.

Definition urlparse (url : string) : option ParseResult := urlparse_with url "".

(** [urlunparse((scheme, netloc, url, params, query, fragment))] *)
Definition urlunparse (r : ParseResult) : string :=
  let url := path r in
  let url := if Str.nonempty (params r) then url +:+ ";" +:+ params r else url in
  let url :=
    if Str.nonempty (netloc r) ||
       (Str.nonempty (scheme r) && mem (scheme r) uses_netloc &&
        negb (Str.startswith url "//"))
    then
      let url :=
        if Str.nonempty url && negb (Str.startswith url "/")
        then "/" +:+ url else url in
      "//" +:+ netloc r +:+ url
    else url in
  let url := if Str.nonempty (scheme r) then scheme r +:+ ":" +:+ url else url in
  let url := if Str.nonempty (query r) then url +:+ "?" +:+ query r else url in
  if Str.nonempty (fragment r) then url +:+ "#" +:+ fragment r else url.

(** [segments[1:-1] = filter(None, segments[1:-1])] *)
Fixpoint filter_inner (l : list string) : list string :=
  match l with
  | [] => []
  | [w] => [w]
  | w :: ws => if Str.nonempty w then w :: filter_inner ws else filter_inner ws
  end.

Definition filter_middle (segments : list string) : list string :=
  match segments with
  | [] => []
  | w :: ws => w :: filter_inner ws
  end.

(** The loop of [urljoin] over the segments; [resolved_path] is kept in
    reverse. *)
Fixpoint resolve (segments : list string) (rev_resolved : list string)
  : list string :=
  match segments with
  | [] => rev rev_resolved
  | seg :: rest =>
      if String.eqb seg ".." then resolve rest (tail rev_resolved)
      else if String.eqb seg "." then resolve rest rev_resolved
      else resolve rest (seg :: rev_resolved)
  end.

(** [urljoin(base, url)] once both are parsed. *)
Definition join_parsed (b u : ParseResult) (url : string) : string :=
  if negb (String.eqb (scheme u) (scheme b)) || negb (mem (scheme u) uses_relative)
  then url
  else if mem (scheme u) uses_netloc && Str.nonempty (netloc u)
  then urlunparse u
  else
    let netloc := if mem (scheme u) uses_netloc then netloc b else netloc u in
    if negb (Str.nonempty (path u)) && negb (Str.nonempty (params u))
    then
      urlunparse
        (mkParseResult (scheme u) netloc (path b) (params b)
           (if Str.nonempty (query u) then query u else query b)
           (fragment u))
    else
      let base_parts := Str.split "/" (path b) in
      let base_parts :=
        if Str.nonempty (List.last base_parts EmptyString)
        then removelast base_parts else base_parts in
      let segments :=
        if Str.startswith (path u) "/" then Str.split "/" (path u)
        else filter_middle (base_parts ++ Str.split "/" (path u)) in
      let resolved_path := resolve segments [] in
      let last_seg := List.last segments EmptyString in
      let resolved_path :=
        if String.eqb last_seg "." || String.eqb last_seg ".."
        then resolved_path ++ [EmptyString] else resolved_path in
      let joined := Str.join "/" resolved_path in
      urlunparse
        (mkParseResult (scheme u) netloc
           (if Str.nonempty joined then joined else "/")
           (params u) (query u) (fragment u)).

(** [urljoin(base, url)], or [None] for the [ValueError] of [urlparse]. *)
Definition urljoin (base url : string) : option string :=
  if negb (Str.nonempty base) then Some url
  else if negb (Str.nonempty url) then Some base
  else
    match urlparse_with base "" with
    | None => None
    | Some b =>
        match urlparse_with url (scheme b) with
        | None => None
        | Some u => Some (join_parsed b u url)
        end
    end.

End Url.

(** ** The data of the program *)

(** An [<a>] element as the program reads it: [link.get('href', '')] and
    [link.text]. *)
Record Tag := mkTag {
  attr_href : option string;
  tag_text : string
}.

Definition get_href (link : Tag) : string := default "" (attr_href link).

(** [BeautifulSoup(html_content, 'html.parser').find_all('a')], in document
    order. *)
Class HtmlParser := { find_all_a : string -> list Tag }.

(** The dictionary [{'files': [...], 'directories': [...]}]. *)
Record Items := mkItems {
  files : list string;
  directories : list string
}.

Definition no_items : Items := mkItems [] [].

(** What the program reads of a [requests.Response].  With [stream=True]
    the body arrives while it is read: [stream_error] says that reading it
    to its end raises. *)
Record Response := mkResponse {
  status_code : nat;
  content_type : option string;
  text : string;
  iter_content : list string;
  stream_error : bool
}.

(** The operating system and the HTTP session.  An operation returns the
    world it leaves behind and [None] when it raises. *)
Class Collaborators (W : Type) := {
  session_get : string -> W -> W * option Response;
  os_makedirs : string -> W -> W * option unit;
  os_path_exists : string -> W -> bool;
  os_path_getsize : string -> W -> option nat;
  os_remove : string -> W -> W * option unit;
  open_wb : string -> W -> W * option unit;
  file_write : string -> string -> W -> W * option unit
}.

(** What the program does, in the order it does it: [Scanned url] is
    [scanned_dirs.add(url)], [Get url] is [session.get(url)], [Listed url
    items] is the return of [get_directory_contents(url)], [Put item] is
    [file_queue.put(item)] and [Skipping file_url] is the message of line 91,
    "Skipping directory listing disguised as file". *)
Inductive event :=
| Scanned (url : string)
| Get (url : string)
| Listed (url : string) (items : Items)
| Put (item : string * string)
| Skipping (file_url : string).

(** The object [self]. *)
Record Downloader (W : Type) := mkDownloader {
  base_url : string;
  output_dir : string;
  downloaded_files : gset string;
  failed_downloads : gset string;
  scanned_dirs : gset string;
  file_queue : list (string * string);
  trace : list event;
  world : W
}.

Arguments mkDownloader {W}.
Arguments base_url {W}.
Arguments output_dir {W}.
Arguments downloaded_files {W}.
Arguments failed_downloads {W}.
Arguments scanned_dirs {W}.
Arguments file_queue {W}.
Arguments trace {W}.
Arguments world {W}.

(** ** Listing parser *)

(** The test of line 43. *)
Definition skip_link (href link_text : string) : bool :=
  Url.mem href [""; "../"; "./"; "/"]
  || Str.startswith href "?"
  || Str.contains "Parent Directory" link_text.

(** One turn of the loop over the links; [None] when [urljoin] raises. *)
Definition parse_link (base_url : string) (items : Items) (link : Tag) : option Items :=
  let href := Str.strip (get_href link) in
  if skip_link href (tag_text link) then Some items
  else
    match Url.urljoin (base_url +:+ "/") href with
    | None => None
    | Some full_url =>
        if Str.endswith href "/"
        then Some (mkItems (files items) (directories items ++ [full_url]))
        else Some (mkItems (files items ++ [full_url]) (directories items))
    end.

(** The loop over the links: an exception ends it and leaves the method. *)
Fixpoint parse_each (base_url : string) (links : list Tag) (items : Items)
  : option Items :=
  match links with
  | [] => Some items
  | link :: rest =>
      match parse_link base_url items link with
      | Some items' => parse_each base_url rest items'
      | None => None
      end
  end.

(** [parse_directory_listing(html_content, base_url)], or [None] for the
    [ValueError] of [urljoin]. *)
Definition parse_directory_listing {parser : HtmlParser}
    (html_content base_url : string) : option Items :=
  parse_each base_url (find_all_a html_content) no_items.

(** ** Path mapper *)

(** Line 137. *)
Definition sanitize (path : string) : string :=
  Str.replace (Str.replace path "../" "") "./" "".

(** Lines 130 to 137, on the path component of the URL. *)
Definition relative_path (url_path : string) : string :=
  let path := Str.lstrip "/" url_path in
  let path := if Str.endswith path "/" then Str.drop_last path else path in
  sanitize path.

(** [get_local_path(url)], or [None] for the [ValueError] of [urlparse]. *)
Definition get_local_path (output_dir url : string) : option string :=
  match Url.urlparse url with
  | Some parsed_url => Some (OsPath.join output_dir (relative_path (Url.path parsed_url)))
  | None => None
  end.

(** ** State and exceptions *)

Section Program.
Context {W : Type} {parser : HtmlParser} {os : Collaborators W}.

(** A statement of a method: it changes [self] and returns, or raises
    ([None]). *)
Definition M (A : Type) : Type := Downloader W -> Downloader W * option A.

Definition ret {A} (a : A) : M A := fun self => (self, Some a).

Definition raise {A} : M A := fun self => (self, None).

Definition bind {A B} (m : M A) (k : A -> M B) : M B :=
  fun self =>
    match m self with
    | (self', Some a) => k a self'
    | (self', None) => (self', None)
    end.

(** [try: m except Exception: h] *)
Definition try_except {A} (m h : M A) : M A :=
  fun self =>
    match m self with
    | (self', Some a) => (self', Some a)
    | (self', None) => h self'
    end.

Definition gets {A} (f : Downloader W -> A) : M A := fun self => (self, Some (f self)).

Definition modify (f : Downloader W -> Downloader W) : M unit :=
  fun self => (f self, Some tt).

Definition set_world (w : W) (self : Downloader W) : Downloader W :=
  mkDownloader (base_url self) (output_dir self) (downloaded_files self)
    (failed_downloads self) (scanned_dirs self) (file_queue self)
    (trace self) w.

Definition log (e : event) (self : Downloader W) : Downloader W :=
  mkDownloader (base_url self) (output_dir self) (downloaded_files self)
    (failed_downloads self) (scanned_dirs self) (file_queue self)
    (trace self ++ [e]) (world self).

(** A call into the operating system or the session. *)
Definition call {A} (op : W -> W * option A) : M A :=
  fun self => let '(w, r) := op (world self) in (set_world w self, r).

Definition downloaded_add (url : string) (self : Downloader W) : Downloader W :=
  mkDownloader (base_url self) (output_dir self) ({[url]} ∪ downloaded_files self)
    (failed_downloads self) (scanned_dirs self) (file_queue self)
    (trace self) (world self).

Definition failed_add (url : string) (self : Downloader W) : Downloader W :=
  mkDownloader (base_url self) (output_dir self) (downloaded_files self)
    ({[url]} ∪ failed_downloads self) (scanned_dirs self) (file_queue self)
    (trace self) (world self).

Definition scanned_add (url : string) (self : Downloader W) : Downloader W :=
  log (Scanned url)
    (mkDownloader (base_url self) (output_dir self) (downloaded_files self)
       (failed_downloads self) ({[url]} ∪ scanned_dirs self) (file_queue self)
       (trace self) (world self)).

Definition queue_put (item : string * string) (self : Downloader W) : Downloader W :=
  log (Put item)
    (mkDownloader (base_url self) (output_dir self) (downloaded_files self)
       (failed_downloads self) (scanned_dirs self) (file_queue self ++ [item])
       (trace self) (world self)).

Definition set_queue (q : list (string * string)) (self : Downloader W) : Downloader W :=
  mkDownloader (base_url self) (output_dir self) (downloaded_files self)
    (failed_downloads self) (scanned_dirs self) q (trace self) (world self).

End Program.

Notation "'let*' x ':=' m 'in' k" := (bind m (fun x => k))
  (at level 10, x name, m at level 100, k at level 200).
Notation "'perform' m 'then' k" := (bind m (fun _ => k))
  (at level 10, m at level 100, k at level 200).

Section Methods.
Context {W : Type} {parser : HtmlParser} {os : Collaborators W}.

(** [self.session.get(url, ...)] *)
Definition get (url : string) : M (W:=W) Response :=
  perform modify (log (Get url)) then call (session_get url).

(** [response.raise_for_status()]: raises on 4xx and 5xx. *)
Definition raise_for_status (response : Response) : M (W:=W) unit :=
  if Nat.leb 400 (status_code response) && Nat.ltb (status_code response) 600
  then raise else ret tt.

(** [response.text] *)
Definition response_text (response : Response) : M (W:=W) string :=
  if stream_error response then raise else ret (text response).

(** The body of the [try] of [get_directory_contents]. *)
Definition scan_directory (url : string) : M (W:=W) Items :=
  let* response := get url in
  perform raise_for_status response then
  let* html := response_text response in
  match parse_directory_listing html url with
  | Some items => ret items
  | None => raise
  end.

(** [get_directory_contents(url)]: the [except] returns the empty
    listing, so the method never raises. *)
Definition get_directory_contents (url : string) (self : Downloader W)
  : Downloader W * Items :=
  let '(self, items) :=
    match scan_directory url self with
    | (self', Some items) => (self', items)
    | (self', None) => (self', no_items)
    end in
  (log (Listed url items) self, items).

(** [for chunk in response.iter_content(...): if chunk: f.write(chunk)] *)
Fixpoint write_chunks (local_path : string) (chunks : list string) : M (W:=W) unit :=
  match chunks with
  | [] => ret tt
  | chunk :: rest =>
      perform (if Str.nonempty chunk then call (file_write local_path chunk) else ret tt) then
      write_chunks local_path rest
  end.

(** Lines 94 to 97. *)
Definition save (local_path : string) (response : Response) : M (W:=W) unit :=
  perform call (open_wb local_path) then
  perform write_chunks local_path (iter_content response) then
  if stream_error response then raise else ret tt.

(** Line 100: [os.path.exists(p) and os.path.getsize(p) > 0]. *)
Definition exists_with_content (local_path : string) : M (W:=W) bool :=
  let* there := gets (fun self => os_path_exists local_path (world self)) in
  if there then
    let* size := call (fun w => (w, os_path_getsize local_path w)) in
    ret (Nat.ltb 0 size)
  else ret false.

(** Line 90: ['text/html' in content_type and 'Index of' in response.text]. *)
Definition is_listing (response : Response) : M (W:=W) bool :=
  let content_type := default "" (content_type response) in
  if Str.contains "text/html" content_type then
    let* body := response_text response in
    ret (Str.contains "Index of" body)
  else ret false.

(** Lines 84 to 105: the file is not on the disk yet. *)
Definition fetch (file_url local_path : string) : M (W:=W) bool :=
  let* response := get file_url in
  perform raise_for_status response then
  let* listing := is_listing response in
  if listing then
    perform modify (log (Skipping file_url)) then ret false
  else
    perform save local_path response then
    let* good := exists_with_content local_path in
    if good then
      perform modify (downloaded_add file_url) then ret true
    else raise.

(** The body of the [try] of [download_file]. *)
Definition attempt (file_url local_path : string) : M (W:=W) bool :=
  let* known := gets (fun self => bool_decide (file_url ∈ downloaded_files self)) in
  if known then ret true else
  perform call (os_makedirs (OsPath.dirname local_path)) then
  let* there := gets (fun self => os_path_exists local_path (world self)) in
  if there then
    perform modify (downloaded_add file_url) then ret true
  else fetch file_url local_path.

(** The [except] of [download_file]. *)
Definition on_failure (file_url local_path : string) : M (W:=W) bool :=
  perform modify (failed_add file_url) then
  let* there := gets (fun self => os_path_exists local_path (world self)) in
  perform (if there then call (os_remove local_path) else ret tt) then
  ret false.

Definition download_file (file_url local_path : string) : M (W:=W) bool :=
  try_except (attempt file_url local_path) (on_failure file_url local_path).

(** One worker taking the items in the order of the queue. *)
Fixpoint worker (items : list (string * string)) : M (W:=W) unit :=
  match items with
  | [] => ret tt
  | (file_url, local_path) :: rest =>
      perform download_file file_url local_path then
      worker rest
  end.

(** The queue is drained: every item put so far is taken and worked. *)
Definition drain : M (W:=W) unit :=
  let* items := gets file_queue in
  perform modify (set_queue []) then
  worker items.

(** Lines 150 to 152: [get_local_path] is outside any [try], so its
    [ValueError] ends the loop and leaves [crawl_directory]. *)
Fixpoint enqueue_files (file_urls : list string) : M (W:=W) unit :=
  match file_urls with
  | [] => ret tt
  | file_url :: rest =>
      let* output_dir := gets output_dir in
      match get_local_path output_dir file_url with
      | Some local_path =>
          perform modify (queue_put (file_url, local_path)) then
          enqueue_files rest
      | None => raise
      end
  end.

(** The loop of lines 155 to 157 over a crawl of one directory: an
    exception of one crawl ends the loop. *)
Fixpoint crawl_each
    (crawl : string -> Downloader W -> option (Downloader W * option unit))
    (dir_urls : list string) (self : Downloader W)
  : option (Downloader W * option unit) :=
  match dir_urls with
  | [] => Some (self, Some tt)
  | dir_url :: rest =>
      match crawl dir_url self with
      | Some (self', Some _) => crawl_each crawl rest self'
      | Some (self', None) => Some (self', None)
      | None => None
      end
  end.

(** [crawl_directory(url)].  The result is [Some (self', Some tt)] when
    the method returns and [Some (self', None)] when it raises.  [fuel]
    bounds the depth of the recursion of the model and [None] means that
    it was not enough; the theorems give a bound that is.  The recursion
    limit of the interpreter is not a part of the method: when the stack
    is short, it is [session.get], many frames deep and inside the [try]
    of [get_directory_contents], that raises [RecursionError], which is
    one of the ways [session_get] raises. *)
Fixpoint crawl_directory (fuel : nat) (url : string) (self : Downloader W)
  : option (Downloader W * option unit) :=
  match fuel with
  | O => None
  | S fuel' =>
      if bool_decide (url ∈ scanned_dirs self) then Some (self, Some tt)
      else
        let self := scanned_add url self in
        let '(self, contents) := get_directory_contents url self in
        match enqueue_files (files contents) self with
        | (self, Some _) =>
            crawl_each (crawl_directory fuel') (directories contents) self
        | (self, None) => Some (self, None)
        end
  end.

(** [__init__]: [None] when [os.makedirs(output_dir)] raises. *)
Definition init (base_url output_dir : string) (w : W) : option (Downloader W) :=
  match os_makedirs output_dir w with
  | (w', Some _) =>
      Some (mkDownloader (Str.rstrip "/" base_url) output_dir ∅ ∅ ∅ [] [] w')
  | (_, None) => None
  end.

(** [start_download] with one worker: the crawl, then the queue drained.
    When the crawl raises, the method raises at once. *)
Definition start_download (fuel : nat) (self : Downloader W)
  : option (Downloader W * option unit) :=
  match crawl_directory fuel (base_url self) self with
  | Some (self', Some _) => Some (drain self')
  | Some (self', None) => Some (self', None)
  | None => None
  end.

(** A statement that leaves everything but the world as it was. *)
Definition world_only {A} (m : M (W:=W) A) : Prop :=
  forall self self' r, m self = (self', r) -> exists w, self' = set_world w self.

(** A statement that changes nothing. *)
Definition stateless {A} (m : M (W:=W) A) : Prop :=
  forall self self' r, m self = (self', r) -> self' = self.

End Methods.

(** ** A mock server and disk

    [site] is the fixed content of a server: the response to a GET of each
    URL it knows; a GET of any other URL raises (a connection error).  The
    world is the disk: the content of every file.  Directories are not
    represented: [os.makedirs] succeeds and changes nothing. *)

Fixpoint assoc (site : list (string * Response)) (url : string) : option Response :=
  match site with
  | [] => None
  | (u, r) :: rest => if String.eqb u url then Some r else assoc rest url
  end.

Definition Disk : Type := gmap string string.

Definition mock (site : list (string * Response)) : Collaborators Disk := {|
  session_get url disk := (disk, assoc site url);
  os_makedirs _ disk := (disk, Some tt);
  os_path_exists p disk := bool_decide (is_Some (disk !! p));
  os_path_getsize p disk := String.length <$> disk !! p;
  os_remove p disk :=
    match disk !! p with
    | Some _ => (delete p disk, Some tt)
    | None => (disk, None)
    end;
  open_wb p disk := (<[p := ""]> disk, Some tt);
  file_write p chunk disk :=
    match disk !! p with
    | Some content => (<[p := content +:+ chunk]> disk, Some tt)
    | None => (disk, None)
    end
|}.

(** A reader of pages made of links written [<a href='target'>text</a>]:
    a single quote opens and closes the target, the next [>] opens the text
    and the next [<] closes it. *)
Inductive reading :=
| Outside
| InTarget (href : string)
| AfterTarget (href : string)
| InText (href link_text : string).

Fixpoint read_links (state : reading) (page : string) : list Tag :=
  match page with
  | EmptyString => []
  | String c rest =>
      match state with
      | Outside =>
          if Ascii.eqb c "'" then read_links (InTarget "") rest
          else read_links Outside rest
      | InTarget href =>
          if Ascii.eqb c "'" then read_links (AfterTarget href) rest
          else read_links (InTarget (href +:+ String c "")) rest
      | AfterTarget href =>
          if Ascii.eqb c ">" then read_links (InText href "") rest
          else read_links (AfterTarget href) rest
      | InText href link_text =>
          if Ascii.eqb c "<" then mkTag (Some href) link_text :: read_links Outside rest
          else read_links (InText href (link_text +:+ String c "")) rest
      end
  end.

Definition mock_parser : HtmlParser := {| find_all_a := read_links Outside |}.


Definition page (body : string) : Response :=
  mkResponse 200 (Some "text/html") body [body] false.

Definition file (body : string) : Response :=
  mkResponse 200 (Some "application/octet-stream") body [body] false.

Definition not_found : Response :=
  mkResponse 404 (Some "text/html") "Not Found" ["Not Found"] false.


(** ** The words of the specification *)

(** A walk over the segments of a path below a root: [..] climbs, [.] and
    the empty segment stay, any other name descends.  [false] when the walk
    climbs above the root. *)
Fixpoint stays_below (segments : list string) (depth : nat) : bool :=
  match segments with
  | [] => true
  | seg :: rest =>
      if String.eqb seg ".." then
        match depth with
        | O => false
        | S d => stays_below rest d
        end
      else if String.eqb seg "." || String.eqb seg "" then stays_below rest depth
      else stays_below rest (S depth)
  end.

Fixpoint strip_prefix (p s : string) {struct p} : option string :=
  match p with
  | EmptyString => Some s
  | String a p' =>
      match s with
      | EmptyString => None
      | String b s' => if Ascii.eqb b a then strip_prefix p' s' else None
      end
  end.

(** A LocalPath is confined to the output root: it is the root followed by
    a relative path that never climbs above it. *)
Definition inside_root (output_root local_path : string) : bool :=
  match strip_prefix output_root local_path with
  | None => false
  | Some rest =>
      (Str.endswith output_root "/" || negb (Str.nonempty rest) || Str.startswith rest "/")
      && stays_below (Str.split "/" rest) 0
  end.

(** The path has no empty segment. *)
Definition no_empty_segment (path : string) : bool := negb (Str.contains "//" path).

(** ** Reading the parser's result *)

(** The target of a link as the parser compares it. *)
Definition href_of (link : Tag) : string := Str.strip (get_href link).

(** The absolute URL of a link on the page at [base_url], or [None] when
    [urljoin] raises. *)
Definition resolved (base_url : string) (link : Tag) : option string :=
  Url.urljoin (base_url +:+ "/") (href_of link).

Definition retained (link : Tag) : bool :=
  negb (skip_link (href_of link) (tag_text link)).

Definition directory_href (link : Tag) : bool := Str.endswith (href_of link) "/".

(** The URLs of the GET requests of a trace, in order. *)
Fixpoint fetches (events : list event) : list string :=
  match events with
  | [] => []
  | Get url :: rest => url :: fetches rest
  | _ :: rest => fetches rest
  end.

(** The files that the loop of lines 150 to 152 puts on the queue: every
    file of the listing with its local path, up to the first one whose URL
    [urlparse] rejects. *)
Fixpoint queued (output_dir : string) (file_urls : list string)
  : list (string * string) :=
  match file_urls with
  | [] => []
  | file_url :: rest =>
      match get_local_path output_dir file_url with
      | Some local_path => (file_url, local_path) :: queued output_dir rest
      | None => []
      end
  end.

Definition work_items (output_dir : string) (items : Items) : list (string * string) :=
  queued output_dir (files items).

(** [urlparse] accepts every file of the listing. *)
Definition well_formed (items : Items) : Prop :=
  Forall (fun file_url => is_Some (Url.urlparse file_url)) (files items).

(** What the visit of one directory adds to the trace: the directory is
    marked, its listing is fetched, and its files are put on the queue. *)
Definition block (output_dir : string) (visit : string * Items) : list event :=
  [Scanned (fst visit); Get (fst visit); Listed (fst visit) (snd visit)]
  ++ map Put (work_items output_dir (snd visit)).

(** The visits of a crawl, in order: each directory with its listing.  The
    crawl from [self] to [self'] made the visits [visits] when it marked
    these directories and no other, none of them marked before and none
    twice, and added one [block] to the trace and the files to the queue for
    each, in this order. *)
Definition crawled {W : Type} (self : Downloader W) (visits : list (string * Items))
    (self' : Downloader W) : Prop :=
  base_url self' = base_url self
  /\ output_dir self' = output_dir self
  /\ downloaded_files self' = downloaded_files self
  /\ failed_downloads self' = failed_downloads self
  /\ scanned_dirs self' = list_to_set (map fst visits) ∪ scanned_dirs self
  /\ file_queue self' =
       file_queue self ++ flat_map (work_items (output_dir self)) (map snd visits)
  /\ trace self' = trace self ++ flat_map (block (output_dir self)) visits
  /\ NoDup (map fst visits)
  /\ (forall d, In d (map fst visits) -> d ∉ scanned_dirs self).

(** Every directory listed by one of the visits is marked in [self']. *)
Definition explored {W : Type} (visits : list (string * Items)) (self' : Downloader W)
  : Prop :=
  forall visit, In visit visits ->
    forall d, In d (directories (snd visit)) -> d ∈ scanned_dirs self'.

(** Depth first, in the words of the specification: [depth_first seen todo
    visits] when [visits] is the order in which a depth-first traversal
    visits what lies below the directories [todo], taken from left to right,
    when the directories [seen] are marked already.  A marked directory is
    passed over.  An unmarked one is visited, then everything below its
    first subdirectory, then below its second, and so on to its last, and
    only then what remains of [todo], its next sibling first. *)
Inductive depth_first (seen : gset string)
  : list string -> list (string * Items) -> Prop :=
| depth_first_done : depth_first seen [] []
| depth_first_marked url rest visits :
    url ∈ seen ->
    depth_first seen rest visits ->
    depth_first seen (url :: rest) visits
| depth_first_visit url items rest below after :
    url ∉ seen ->
    depth_first ({[url]} ∪ seen) (directories items) below ->
    depth_first (list_to_set (map fst below) ∪ ({[url]} ∪ seen)) rest after ->
    depth_first seen (url :: rest) ((url, items) :: below ++ after).

(** What a crawl over the directories [todo] has done when it ends.  Having
    returned, it has visited what lies below them depth first, every file
    of every listing is on the queue and every listed directory is marked.
    Having raised, it has met a file URL that [urlparse] rejects. *)
Definition crawl_outcome {W : Type} (self : Downloader W) (todo : list string)
    (visits : list (string * Items)) (self' : Downloader W) (r : option unit) : Prop :=
  match r with
  | Some _ =>
      explored visits self'
      /\ Forall (fun visit => well_formed (snd visit)) visits
      /\ depth_first (scanned_dirs self) todo visits
  | None =>
      exists visit file_url,
        In visit visits
        /\ In file_url (files (snd visit))
        /\ Url.urlparse file_url = None
  end.



(** [n] slashes. *)
Fixpoint slashes (n : nat) : string :=
  match n with
  | O => EmptyString
  | S k => String "/" (slashes k)
  end.

(** The constructor followed by the crawl of [start_download]. *)
Definition crawl_from {W : Type} {parser : HtmlParser} {os : Collaborators W}
    (fuel : nat) (root_url output_dir : string) (w : W)
    : option (Downloader W * option unit) :=
  match init root_url output_dir w with
  | Some self => crawl_directory fuel (base_url self) self
  | None => None
  end.

(** A whole run with one worker. *)
Definition run {W : Type} {parser : HtmlParser} {os : Collaborators W}
    (fuel : nat) (root_url output_dir : string) (w : W)
    : option (Downloader W * option unit) :=
  match init root_url output_dir w with
  | Some self => start_download fuel self
  | None => None
  end.

(** ** Scenarios on the mock *)

(** A listing that links the same file under two URLs, the first of which
    the server does not know. *)
Definition site_two_names : list (string * Response) :=
  [("http://h/pub",
    page "<h1>Index of /pub</h1><a href='f.txt?v=1'>old</a><a href='f.txt'>f.txt</a>");
   ("http://h/pub/f.txt", file "data");
   ("http://h/pub/f.txt?v=1", not_found)].

(** The same, with the first link once more at the end. *)
Definition site_linked_twice : list (string * Response) :=
  [("http://h/pub",
    page "<a href='f.txt?v=1'>old</a><a href='f.txt'>f.txt</a><a href='f.txt?v=1'>old</a>");
   ("http://h/pub/f.txt", file "data");
   ("http://h/pub/f.txt?v=1", not_found)].

(** A directory linked without its slash: the server answers the file URL
    with the listing of the directory. *)
Definition site_unslashed : list (string * Response) :=
  [("http://h/pub", page "<h1>Index of /pub</h1><a href='sub'>sub</a>");
   ("http://h/pub/sub", page "<h1>Index of /pub/sub</h1>")].

(** Two directories that link to each other, the second with a file. *)
Definition site_cycle : list (string * Response) :=
  [("http://h/r", page "<a href='a/'>a/</a>");
   ("http://h/r/a/", page "<a href='b/'>b/</a><a href='one.txt'>one.txt</a>");
   ("http://h/r/a/b/", page "<a href='two.txt'>two.txt</a><a href='/r/a/'>back</a>");
   ("http://h/r/a/one.txt", file "1");
   ("http://h/r/a/b/two.txt", file "2")].

Definition fresh (site : list (string * Response)) (root_url : string)
  : option (Downloader Disk) :=
  init (os := mock site) root_url "./out" ∅.

(** The object after [__init__], with nothing scanned or downloaded, on a
    given disk and with given items on the queue. *)
Definition idle (base_url : string) (queue : list (string * string)) (disk : Disk)
  : Downloader Disk :=
  mkDownloader base_url "./out" ∅ ∅ ∅ queue [] disk.


(** ** More scenarios and words *)

(** The mock on a disk whose files cannot be removed: [os.remove] always
    raises. *)
Definition mock_no_remove (site : list (string * Response)) : Collaborators Disk := {|
  session_get url disk := (disk, assoc site url);
  os_makedirs _ disk := (disk, Some tt);
  os_path_exists p disk := bool_decide (is_Some (disk !! p));
  os_path_getsize p disk := String.length <$> disk !! p;
  os_remove p disk := (disk, None);
  open_wb p disk := (<[p := ""]> disk, Some tt);
  file_write p chunk disk :=
    match disk !! p with
    | Some content => (<[p := content +:+ chunk]> disk, Some tt)
    | None => (disk, None)
    end
|}.

(** A file the server sends with an empty body. *)
Definition site_empty_file : list (string * Response) :=
  [("http://h/pub/empty.txt", mkResponse 200 (Some "text/plain") "" [] false)].

(** The files of the listings of a crawl, in the order they were queued. *)
Definition discovered_files (visits : list (string * Items)) : list string :=
  flat_map (fun visit => files (snd visit)) visits.

(** A string of whitespace only. *)
Definition blank (s : string) : bool := Str.forallb Str.isspace s.

(** The chunks of a body, one after the other. *)
Fixpoint body_of (chunks : list string) : string :=
  match chunks with
  | [] => ""
  | chunk :: rest => chunk +:+ body_of rest
  end.

(** On the mock, the server answers [file_url] with what [download_file]
    takes for a file: a status that [raise_for_status] lets through, a body
    that can be read to its end and is not empty, and no listing in
    disguise. *)
Definition downloadable (site : list (string * Response)) (file_url : string) : bool :=
  match assoc site file_url with
  | None => false
  | Some response =>
      negb (Nat.leb 400 (status_code response) && Nat.ltb (status_code response) 600)
      && negb (stream_error response)
      && negb (Str.contains "text/html" (default "" (content_type response))
               && Str.contains "Index of" (text response))
      && Nat.ltb 0 (String.length (body_of (iter_content response)))
  end.

(** The body the mock server sends for [file_url]. *)
Definition body (site : list (string * Response)) (file_url : string) : string :=
  match assoc site file_url with
  | None => ""
  | Some response => body_of (iter_content response)
  end.

(** * Properties *)

(** ** Strings *)

Section StrFacts.
#[local] Arguments Ascii.eqb : simpl never.
#[local] Arguments String.eqb : simpl never.

Lemma startswith_slash (s : string) :
  Str.startswith s "/" = true <-> exists r, s = String "/" r.
Proof.
  destruct s as [|a r]; simpl.
  - split; [discriminate | intros [r Hr]; discriminate].
  - destruct (Ascii.eqb_spec a "/") as [->|Hne].
    + split; eauto.
    + split; [discriminate | intros [r' Hr']; congruence].
Qed.

Lemma contains_cons (p : string) (a : ascii) (s : string) :
  Str.contains p (String a s) = false ->
  Str.startswith (String a s) p = false /\ Str.contains p s = false.
Proof. cbn [Str.contains]. intros H. apply orb_false_iff in H. exact H. Qed.

Lemma contains_cons_intro (p : string) (a : ascii) (s : string) :
  Str.startswith (String a s) p = false -> Str.contains p s = false ->
  Str.contains p (String a s) = false.
Proof. intros H1 H2. cbn [Str.contains]. rewrite H1, H2. reflexivity. Qed.

Lemma app_cons (a : ascii) (p r : string) : String a p +:+ r = String a (p +:+ r).
Proof. reflexivity. Qed.

Lemma app_nil (p : string) : p +:+ "" = p.
Proof. induction p as [|a p IH]; [reflexivity|]. rewrite app_cons, IH. reflexivity. Qed.

Lemma length_app (p r : string) :
  String.length (p +:+ r) = String.length p + String.length r.
Proof.
  induction p as [|a p IH]; [reflexivity|].
  rewrite app_cons. cbn [String.length]. rewrite IH. reflexivity.
Qed.

(** A string with a prefix is the prefix followed by the rest. *)
Lemma startswith_app (p s : string) :
  Str.startswith s p = true <-> exists r, s = p +:+ r.
Proof.
  revert s. induction p as [|a p IH]; intros s; simpl.
  - split; eauto.
  - destruct s as [|b s].
    + split; [discriminate | intros [r Hr]; discriminate].
    + destruct (Ascii.eqb_spec b a) as [->|Hne].
      * rewrite IH. split; intros [r Hr]; exists r; rewrite app_cons in *; congruence.
      * split; [discriminate | intros [r Hr]; rewrite app_cons in Hr; congruence].
Qed.

#[local] Abbreviation rm3 := (Str.replace_scan "../" "" 0).
#[local] Abbreviation rm2 := (Str.replace_scan "./" "" 0).

Lemma rm3_hit (r : string) : rm3 (String "." (String "." (String "/" r))) = rm3 r.
Proof. reflexivity. Qed.

Lemma rm2_hit (r : string) : rm2 (String "." (String "/" r)) = rm2 r.
Proof. reflexivity. Qed.

Lemma rm3_miss (a : ascii) (r : string) :
  Str.startswith (String a r) "../" = false -> rm3 (String a r) = String a (rm3 r).
Proof. intros H. cbn [Str.replace_scan]. rewrite H. reflexivity. Qed.

Lemma rm2_miss (a : ascii) (r : string) :
  Str.startswith (String a r) "./" = false -> rm2 (String a r) = String a (rm2 r).
Proof. intros H. cbn [Str.replace_scan]. rewrite H. reflexivity. Qed.

(** The three shapes of a string under a scan for [old]. *)
Lemma scan_cases (old s : string) :
  s = EmptyString
  \/ (exists r, s = old +:+ r /\ Str.startswith s old = true)
  \/ (exists a r, s = String a r /\ Str.startswith s old = false).
Proof.
  destruct s as [|a r]; [left; reflexivity | right].
  destruct (Str.startswith (String a r) old) eqn:E.
  - left. apply startswith_app in E as [r' Hr']. eauto.
  - right. eauto.
Qed.

Lemma two_slashes (r : string) :
  Str.startswith (String "/" r) "//" = Str.startswith r "/".
Proof. reflexivity. Qed.

Lemma head_slash (a : ascii) (r : string) :
  Str.startswith (String a r) "/" = Ascii.eqb a "/".
Proof. cbn [Str.startswith]. destruct (Ascii.eqb a "/"); reflexivity. Qed.

Lemma startswith_cons2 (a : ascii) (r p : string) (b : ascii) :
  Str.startswith (String a r) (String b p) =
  Ascii.eqb a b && Str.startswith r p.
Proof. cbn [Str.startswith]. destruct (Ascii.eqb a b); reflexivity. Qed.

(** Removing [../] from a path without an empty segment makes no empty
    segment and no leading slash. *)
Lemma rm3_no_empty_segment (n : nat) (s : string) :
  String.length s <= n ->
  Str.contains "//" s = false ->
  Str.contains "//" (rm3 s) = false
  /\ (Str.startswith (rm3 s) "/" = true -> Str.startswith s "/" = true).
Proof.
  revert s. induction n as [|n IH]; intros s Hlen Hs.
  - destruct s; [split; [reflexivity | discriminate] | simpl in Hlen; lia].
  - destruct (scan_cases "../" s) as [-> | [(r & -> & _) | (a & r & -> & Hmiss)]].
    + split; [reflexivity | discriminate].
    + change ("../" +:+ r) with (String "." (String "." (String "/" r))) in *.
      rewrite rm3_hit.
      apply contains_cons in Hs as [_ Hs].
      apply contains_cons in Hs as [_ Hs].
      apply contains_cons in Hs as [Hh Hs].
      rewrite two_slashes in Hh.
      destruct (IH r) as [IH1 IH2]; [simpl in Hlen; lia | exact Hs |].
      split; [exact IH1|].
      intros Hr. rewrite (IH2 Hr) in Hh. discriminate.
    + rewrite (rm3_miss _ _ Hmiss).
      apply contains_cons in Hs as [Hh Hs].
      destruct (IH r) as [IH1 IH2]; [simpl in Hlen; lia | exact Hs |].
      split.
      * apply contains_cons_intro; [|exact IH1].
        rewrite startswith_cons2 in Hh |- *.
        destruct (Ascii.eqb a "/"); [|reflexivity].
        cbn [andb] in *.
        destruct (Str.startswith (rm3 r) "/") eqn:E; [|reflexivity].
        rewrite (IH2 eq_refl) in Hh. discriminate.
      * rewrite !head_slash. trivial.
Qed.

(** Removing [./] from a path without an empty segment leaves no [./],
    no empty segment and no leading slash. *)
Lemma rm2_no_dot_slash (n : nat) (s : string) :
  String.length s <= n ->
  Str.contains "//" s = false ->
  Str.contains "./" (rm2 s) = false
  /\ Str.contains "//" (rm2 s) = false
  /\ (Str.startswith (rm2 s) "/" = true -> Str.startswith s "/" = true).
Proof.
  revert s. induction n as [|n IH]; intros s Hlen Hs.
  - destruct s; [repeat split; discriminate | simpl in Hlen; lia].
  - destruct (scan_cases "./" s) as [-> | [(r & -> & _) | (a & r & -> & Hmiss)]].
    + repeat split; discriminate.
    + change ("./" +:+ r) with (String "." (String "/" r)) in *.
      rewrite rm2_hit.
      apply contains_cons in Hs as [_ Hs].
      apply contains_cons in Hs as [Hh Hs].
      rewrite two_slashes in Hh.
      destruct (IH r) as (IH1 & IH2 & IH3); [simpl in Hlen; lia | exact Hs |].
      repeat split; [exact IH1 | exact IH2 |].
      intros Hr. rewrite (IH3 Hr) in Hh. discriminate.
    + rewrite (rm2_miss _ _ Hmiss).
      apply contains_cons in Hs as [Hh Hs].
      destruct (IH r) as (IH1 & IH2 & IH3); [simpl in Hlen; lia | exact Hs |].
      repeat split.
      * apply contains_cons_intro; [|exact IH1].
        rewrite startswith_cons2 in Hmiss |- *.
        destruct (Ascii.eqb a "."); [|reflexivity].
        cbn [andb] in *.
        destruct (Str.startswith (rm2 r) "/") eqn:E; [|reflexivity].
        specialize (IH3 eq_refl). congruence.
      * apply contains_cons_intro; [|exact IH2].
        rewrite startswith_cons2 in Hh |- *.
        destruct (Ascii.eqb a "/"); [|reflexivity].
        cbn [andb] in *.
        destruct (Str.startswith (rm2 r) "/") eqn:E; [|reflexivity].
        rewrite (IH3 eq_refl) in Hh. discriminate.
      * rewrite !head_slash. trivial.
Qed.

(** A string without [./] is left as it is by both scans. *)
Lemma rm2_fixed (s : string) : Str.contains "./" s = false -> rm2 s = s.
Proof.
  induction s as [|a r IH]; intros Hs; [reflexivity|].
  apply contains_cons in Hs as [Hh Hs].
  rewrite (rm2_miss _ _ Hh), (IH Hs). reflexivity.
Qed.

Lemma rm3_fixed (s : string) : Str.contains "./" s = false -> rm3 s = s.
Proof.
  induction s as [|a r IH]; intros Hs; [reflexivity|].
  pose proof Hs as Hs0.
  apply contains_cons in Hs as [Hh Hs].
  rewrite rm3_miss, (IH Hs); [reflexivity|].
  rewrite startswith_cons2.
  destruct (Ascii.eqb a "."); [|reflexivity]. cbn [andb].
  destruct r as [|b r]; [reflexivity|].
  apply contains_cons in Hs as [Hh' _]. exact Hh'.
Qed.

(** *** Trailing slashes *)

Lemma endswith_cons (a : ascii) (r p : string) :
  Str.endswith r p = true -> Str.endswith (String a r) p = true.
Proof. intros H. cbn [Str.endswith]. rewrite H. apply orb_true_r. Qed.

Lemma endswith_slash_cons (a : ascii) (r : string) :
  Str.endswith (String a r) "/" = true ->
  (a = "/"%char /\ r = EmptyString) \/ Str.endswith r "/" = true.
Proof.
  cbn [Str.endswith]. intros H. apply orb_true_iff in H as [H|H]; [left | right; exact H].
  apply String.eqb_eq in H. injection H as -> ->. split; reflexivity.
Qed.

Lemma endswith_app (p r : string) :
  Str.endswith r "/" = true -> Str.endswith (p +:+ r) "/" = true.
Proof.
  intros H. induction p as [|a p IH]; [exact H|].
  rewrite app_cons. apply endswith_cons, IH.
Qed.

Lemma endswith_self (p : string) : Str.endswith p p = true.
Proof. destruct p; cbn [Str.endswith]; rewrite String.eqb_refl; reflexivity. Qed.

Lemma skip_all (old new o r : string) :
  Str.replace_scan old new (String.length o) (o +:+ r) = Str.replace_scan old new 0 r.
Proof.
  induction o as [|a o IH]; [reflexivity|].
  rewrite app_cons. cbn [String.length Str.replace_scan]. exact IH.
Qed.

Lemma scan_hit (a : ascii) (o r : string) :
  Str.replace_scan (String a o) "" 0 (String a o +:+ r) =
  Str.replace_scan (String a o) "" 0 r.
Proof.
  rewrite app_cons at 1. cbn [Str.replace_scan].
  rewrite <- app_cons.
  assert (Str.startswith (String a o +:+ r) (String a o) = true) as ->
    by (apply startswith_app; eauto).
  replace (String.length (String a o) - 1) with (String.length o)
    by (cbn [String.length]; lia).
  change ("" +:+ ?x) with x.
  apply skip_all.
Qed.

Lemma scan_miss (old : string) (a : ascii) (r : string) :
  Str.startswith (String a r) old = false ->
  Str.replace_scan old "" 0 (String a r) = String a (Str.replace_scan old "" 0 r).
Proof. intros H. cbn [Str.replace_scan]. rewrite H. reflexivity. Qed.

(** A scan that removes a pattern ending in a slash gives a trailing
    slash only to a string that had one. *)
Lemma scan_trailing_slash (a : ascii) (o : string) (n : nat) (s : string) :
  Str.endswith (String a o) "/" = true ->
  String.length s <= n ->
  (Str.replace_scan (String a o) "" 0 s = EmptyString ->
     s = EmptyString \/ Str.endswith s "/" = true)
  /\ (Str.endswith (Str.replace_scan (String a o) "" 0 s) "/" = true ->
     Str.endswith s "/" = true).
Proof.
  intros Hold. revert s. induction n as [|n IH]; intros s Hlen.
  - destruct s; [|simpl in Hlen; lia]. split; [left; reflexivity | discriminate].
  - destruct (scan_cases (String a o) s) as [-> | [(r & -> & _) | (b & r & -> & Hmiss)]].
    + split; [left; reflexivity | discriminate].
    + rewrite scan_hit.
      assert (String.length r <= n) as Hr.
      { rewrite length_app in Hlen. cbn [String.length] in Hlen. lia. }
      destruct (IH r Hr) as [IH1 IH2]. split.
      * intros H. right. destruct (IH1 H) as [-> | Hr'].
        -- rewrite app_nil. exact Hold.
        -- apply endswith_app, Hr'.
      * intros H. apply endswith_app, IH2, H.
    + rewrite (scan_miss _ _ _ Hmiss).
      destruct (IH r) as [IH1 IH2]; [simpl in Hlen; lia|]. split.
      * discriminate.
      * intros H. apply endswith_slash_cons in H as [[-> Hnil] | H].
        -- destruct (IH1 Hnil) as [-> | Hr]; [reflexivity | apply endswith_cons, Hr].
        -- apply endswith_cons, IH2, H.
Qed.

Lemma lstrip_fixed (s : string) :
  Str.startswith s "/" = false -> Str.lstrip "/" s = s.
Proof.
  destruct s as [|a r]; [reflexivity|].
  rewrite head_slash. cbn [Str.lstrip]. intros ->. reflexivity.
Qed.

Lemma lstrip_no_slash (s : string) : Str.startswith (Str.lstrip "/" s) "/" = false.
Proof.
  induction s as [|a r IH]; [reflexivity|].
  cbn [Str.lstrip]. destruct (Ascii.eqb a "/") eqn:E; [exact IH|].
  rewrite head_slash. exact E.
Qed.

Lemma lstrip_no_empty_segment (s : string) :
  Str.contains "//" s = false -> Str.contains "//" (Str.lstrip "/" s) = false.
Proof.
  induction s as [|a r IH]; intros Hs; [reflexivity|].
  cbn [Str.lstrip]. destruct (Ascii.eqb a "/"); [|exact Hs].
  apply contains_cons in Hs as [_ Hs]. apply IH, Hs.
Qed.

(** Dropping the trailing slash of a path without an empty segment. *)
Lemma drop_last_facts (s : string) :
  Str.contains "//" s = false ->
  Str.endswith s "/" = true ->
  Str.contains "//" (Str.drop_last s) = false
  /\ Str.endswith (Str.drop_last s) "/" = false
  /\ (Str.startswith s "/" = false -> Str.startswith (Str.drop_last s) "/" = false).
Proof.
  induction s as [|a r IH]; intros Hs He; [discriminate|].
  apply contains_cons in Hs as [Hh Hs].
  apply endswith_slash_cons in He as [[-> ->] | He].
  - repeat split; reflexivity.
  - destruct r as [|b r]; [discriminate|].
    destruct (IH Hs He) as (IH1 & IH2 & IH3).
    change (Str.drop_last (String a (String b r)))
      with (String a (Str.drop_last (String b r))).
    repeat split.
    + apply contains_cons_intro; [|exact IH1].
      rewrite startswith_cons2 in Hh |- *.
      destruct (Ascii.eqb a "/"); [|reflexivity]. cbn [andb] in *.
      apply IH3, Hh.
    + cbn [Str.endswith]. cbn [Str.endswith] in IH2. rewrite IH2.
      rewrite orb_false_r.
      destruct (Str.drop_last (String b r)) eqn:E; [|].
      * destruct r; [|discriminate E].
        apply endswith_slash_cons in He as [[-> _] | He]; [|discriminate].
        rewrite startswith_cons2, head_slash, Ascii.eqb_refl, andb_true_r in Hh.
        apply String.eqb_neq. intros [= -> ]. rewrite Ascii.eqb_refl in Hh. discriminate.
      * apply String.eqb_neq. discriminate.
    + rewrite !head_slash. trivial.
Qed.

End StrFacts.

(** ** Path mapper *)

Section PathMapper.

Lemma sanitize_scans (path : string) :
  sanitize path = Str.replace_scan "./" "" 0 (Str.replace_scan "../" "" 0 path).
Proof. reflexivity. Qed.

Lemma sanitize_facts (path : string) :
  Str.contains "//" path = false ->
  Str.contains "./" (sanitize path) = false
  /\ (Str.startswith (sanitize path) "/" = true -> Str.startswith path "/" = true)
  /\ (Str.endswith (sanitize path) "/" = true -> Str.endswith path "/" = true).
Proof.
  intros Hp. rewrite sanitize_scans.
  destruct (rm3_no_empty_segment _ path (le_n _) Hp) as [H1 H2].
  destruct (rm2_no_dot_slash _ _ (le_n _) H1) as (H3 & _ & H4).
  repeat split; [exact H3 | auto |].
  intros H.
  apply (scan_trailing_slash "." "/" _ _ eq_refl (le_n _)) in H.
  apply (scan_trailing_slash "." "./" _ _ eq_refl (le_n _)) in H.
  exact H.
Qed.

Lemma sanitize_fixed (path : string) :
  Str.contains "./" path = false -> sanitize path = path.
Proof.
  intros H. rewrite sanitize_scans, (rm3_fixed _ H), (rm2_fixed _ H). reflexivity.
Qed.

Lemma relative_path_facts (path : string) :
  Str.contains "//" path = false ->
  Str.contains "./" (relative_path path) = false
  /\ Str.startswith (relative_path path) "/" = false
  /\ Str.endswith (relative_path path) "/" = false.
Proof.
  intros Hp. unfold relative_path.
  pose proof (lstrip_no_empty_segment _ Hp) as H1.
  pose proof (lstrip_no_slash path) as H2.
  set (p1 := Str.lstrip "/" path) in *.
  assert (exists p2, (if Str.endswith p1 "/" then Str.drop_last p1 else p1) = p2
            /\ Str.contains "//" p2 = false
            /\ Str.startswith p2 "/" = false
            /\ Str.endswith p2 "/" = false) as (p2 & -> & H3 & H4 & H5).
  { destruct (Str.endswith p1 "/") eqn:E.
    - destruct (drop_last_facts _ H1 E) as (F1 & F2 & F3). eauto 6.
    - eauto 6. }
  destruct (sanitize_facts _ H3) as (G1 & G2 & G3).
  repeat split; [exact G1 | |].
  - destruct (Str.startswith (sanitize p2) "/") eqn:E; [|reflexivity].
    rewrite (G2 eq_refl) in H4. discriminate.
  - destruct (Str.endswith (sanitize p2) "/") eqn:E; [|reflexivity].
    rewrite (G3 eq_refl) in H5. discriminate.
Qed.

End PathMapper.

(** Where the strip does reach its fixed point: on a URL path without an
    empty segment (no [//]), the strip of [../] and [./] leaves no [./]
    behind, so stripping the stripped path again changes nothing, and
    neither does mapping the mapped relative path again. *)
Lemma sanitize_idempotent_without_empty_segment (path : string) :
  no_empty_segment path = true ->
  Str.contains "./" (sanitize path) = false
  /\ sanitize (sanitize path) = sanitize path
  /\ relative_path (relative_path path) = relative_path path.
Proof.
  unfold no_empty_segment. intros Hp. apply negb_true_iff in Hp.
  destruct (sanitize_facts _ Hp) as (H1 & _ & _).
  destruct (relative_path_facts _ Hp) as (R1 & R2 & R3).
  repeat split; [exact H1 | apply sanitize_fixed, H1 |].
  set (q := relative_path path) in *.
  unfold relative_path. rewrite (lstrip_fixed _ R2), R3.
  apply sanitize_fixed, R1.
Qed.

Lemma sanitize_idempotent_witness :
  no_empty_segment "/pub/../a/./b/" = true
  /\ sanitize (sanitize "/pub/../a/./b/") = sanitize "/pub/../a/./b/"
  /\ relative_path (relative_path "/pub/../a/./b/") = relative_path "/pub/../a/./b/".
Proof.
  split; [reflexivity|].
  apply (sanitize_idempotent_without_empty_segment "/pub/../a/./b/"). reflexivity.
Defined.

(** C8: the strip of line 137 is not idempotent.  Each [str.replace] runs
    once over the path, from left to right, and does not look again at what
    it leaves: of [.....///x] it leaves [../x], which a second strip turns
    into [x].  The same holds of the whole mapping of a URL path to a
    relative path.  What the first strip leaves still climbs: this is the
    residue that takes the local path of C1 out of the output root. *)
Theorem sanitize_not_idempotent :
  sanitize ".....///x" = "../x"
  /\ sanitize (sanitize ".....///x") = "x"
  /\ sanitize (sanitize ".....///x") <> sanitize ".....///x"
  /\ relative_path "/.....///x" = "../x"
  /\ relative_path (relative_path "/.....///x") = "x"
  /\ get_local_path "./downloaded_files" "http://host/.....///x"
     = Some "./downloaded_files/../x"
  /\ inside_root "./downloaded_files" "./downloaded_files/../x" = false.
Proof. split_and!; try reflexivity. discriminate. Qed.

(** C1: the local path of a URL can leave the output root.  A path that
    begins with [.//] maps to an absolute path, and one with [.....///]
    segments maps to a path that climbs out of the root.  The parser
    returns both URLs as files when a page links to them. *)
Theorem get_local_path_leaves_root :
  get_local_path "./downloaded_files" "http://host/.//etc/passwd" = Some "/etc/passwd"
  /\ inside_root "./downloaded_files" "/etc/passwd" = false
  /\ get_local_path "./downloaded_files" "http://host/.....///.....///etc/passwd"
     = Some "./downloaded_files/../../etc/passwd"
  /\ inside_root "./downloaded_files" "./downloaded_files/../../etc/passwd" = false
  /\ inside_root "./downloaded_files" <$>
       get_local_path "./downloaded_files" "http://host/pub/sub/file.txt" = Some true
  /\ files <$> parse_directory_listing (parser := mock_parser)
              "<a href='http://host/.//etc/passwd'>a</a><a href='/.....///.....///etc/passwd'>b</a>"
              "http://host/pub"
     = Some ["http://host/.//etc/passwd"; "http://host/.....///.....///etc/passwd"].
Proof. repeat split. Qed.

(** ** Listing parser *)

Section Parser.
Context {parser : HtmlParser}.

Lemma parse_link_retained (base_url : string) (items : Items) (link : Tag) :
  parse_link base_url items link =
  if retained link then
    match resolved base_url link with
    | Some full_url =>
        if directory_href link
        then Some (mkItems (files items) (directories items ++ [full_url]))
        else Some (mkItems (files items ++ [full_url]) (directories items))
    | None => None
    end
  else Some items.
Proof.
  unfold parse_link, retained, directory_href, resolved, href_of.
  destruct (skip_link _ _); reflexivity.
Qed.

(** The loop of the parser, link by link, when it comes to its end. *)
Lemma parse_links (base_url : string) (links : list Tag) (items items' : Items) :
  parse_each base_url links items = Some items' ->
  map Some (files items') =
    map Some (files items) ++
    map (resolved base_url)
      (List.filter (fun l => retained l && negb (directory_href l)) links)
  /\ map Some (directories items') =
    map Some (directories items) ++
    map (resolved base_url)
      (List.filter (fun l => retained l && directory_href l) links).
Proof.
  revert items. induction links as [|link links IH]; intros items H.
  - injection H as <-. cbn. rewrite !app_nil_r. split; reflexivity.
  - cbn [parse_each] in H. rewrite parse_link_retained in H.
    cbn [List.filter].
    destruct (retained link); cbn [andb].
    + destruct (resolved base_url link) as [full_url|] eqn:E; [|discriminate H].
      destruct (directory_href link); cbn [negb] in *;
        apply IH in H as [H1 H2]; cbn [files directories] in H1, H2;
        rewrite H1, H2, ?map_app; cbn [map]; rewrite <- ?app_assoc, ?E;
        split; reflexivity.
    + apply IH in H. exact H.
Qed.

(** The loop is left by an exception only at a retained link whose target
    [urljoin] rejects. *)
Lemma parse_links_raise (base_url : string) (links : list Tag) (items : Items) :
  parse_each base_url links items = None ->
  exists link,
    In link links /\ retained link = true /\ resolved base_url link = None.
Proof.
  revert items. induction links as [|link links IH]; intros items H; [discriminate H|].
  cbn [parse_each] in H. rewrite parse_link_retained in H.
  destruct (retained link) eqn:Hkept.
  - destruct (resolved base_url link) as [full_url|] eqn:E.
    + destruct (directory_href link);
        apply IH in H as (l & Hin & Hl & Hr); exists l; (split; [right; exact Hin | auto]).
    + exists link. split; [left; reflexivity | auto].
  - apply IH in H as (l & Hin & Hl & Hr). exists l. split; [right; exact Hin | auto].
Qed.

(** Every URL of the result comes from a retained link. *)
Lemma returned_link (html_content base_url url : string) (items : Items) :
  parse_directory_listing html_content base_url = Some items ->
  In url (files items ++ directories items) ->
  exists link,
    In link (find_all_a html_content)
    /\ resolved base_url link = Some url
    /\ retained link = true.
Proof.
  unfold parse_directory_listing. intros H Hin.
  apply parse_links in H as [Hf Hd]. cbn [files directories no_items map app] in Hf, Hd.
  assert (In (Some url) (map Some (files items)) \/ In (Some url) (map Some (directories items)))
    as Hin'.
  { apply in_app_iff in Hin as [Hin|Hin]; [left | right]; apply in_map, Hin. }
  rewrite Hf, Hd in Hin'.
  destruct Hin' as [Hin'|Hin']; apply in_map_iff in Hin' as (link & Hr & Hl);
    apply filter_In in Hl as [Hl Hk]; apply andb_true_iff in Hk as [Hk _]; eauto.
Qed.

Lemma skip_link_false (href link_text : string) :
  skip_link href link_text = false ->
  href <> "" /\ href <> "../" /\ href <> "./" /\ href <> "/"
  /\ Str.startswith href "?" = false
  /\ Str.contains "Parent Directory" link_text = false.
Proof.
  unfold skip_link, Url.mem. cbn [existsb].
  intros H.
  apply orb_false_iff in H as [H Htext].
  apply orb_false_iff in H as [H Hquery].
  apply orb_false_iff in H as [H1 H].
  apply orb_false_iff in H as [H2 H].
  apply orb_false_iff in H as [H3 H].
  apply orb_false_iff in H as [H4 _].
  apply String.eqb_neq in H1, H2, H3, H4.
  repeat split; assumption.
Qed.

End Parser.

(** C5, as amended: a retained link is listed as a directory exactly when
    its target, as written in the page, ends in a slash, and as a file
    otherwise; each list keeps the order of the page.  The parser returns
    nothing only when [urljoin] rejects the target of a retained link. *)
Theorem classified_by_written_target {parser : HtmlParser} (html_content base_url : string) :
  match parse_directory_listing html_content base_url with
  | Some items =>
      map Some (directories items) =
        map (resolved base_url)
          (List.filter (fun l => retained l && directory_href l) (find_all_a html_content))
      /\ map Some (files items) =
        map (resolved base_url)
          (List.filter (fun l => retained l && negb (directory_href l))
             (find_all_a html_content))
  | None =>
      exists link,
        In link (find_all_a html_content)
        /\ retained link = true
        /\ resolved base_url link = None
  end.
Proof.
  unfold parse_directory_listing.
  destruct (parse_each base_url (find_all_a html_content) no_items) as [items|] eqn:E.
  - apply parse_links in E as [Hf Hd]. split; [exact Hd | exact Hf].
  - apply parse_links_raise in E. exact E.
Qed.

(** C5, as stated, fails: the slash that decides is the one of the written
    target, not the one of the path of the resolved URL.  [sub/?C=M]
    resolves to a URL whose path ends in a slash and is listed as a file;
    [x#frag/] resolves to a URL whose path does not and is listed as a
    directory. *)
Lemma classified_against_resolved_path :
  parse_directory_listing (parser := mock_parser)
    "<a href='sub/?C=M'>sub</a><a href='x#frag/'>x</a>" "http://h/pub"
  = Some (mkItems ["http://h/pub/sub/?C=M"] ["http://h/pub/x#frag/"])
  /\ Url.path <$> Url.urlparse "http://h/pub/sub/?C=M" = Some "/pub/sub/"
  /\ Str.endswith "/pub/sub/" "/" = true
  /\ Url.path <$> Url.urlparse "http://h/pub/x#frag/" = Some "/pub/x"
  /\ Str.endswith "/pub/x" "/" = false.
Proof. repeat split. Qed.

(** Every URL the parser returns comes from a link whose target is not
    empty, is none of [./], [/] and [../], does not start with [?], and
    whose text does not contain "Parent Directory". *)
Lemma returned_links_are_not_discarded {parser : HtmlParser}
    (html_content base_url url : string) (items : Items) :
  parse_directory_listing html_content base_url = Some items ->
  In url (files items ++ directories items) ->
  exists link,
    In link (find_all_a html_content)
    /\ resolved base_url link = Some url
    /\ href_of link <> ""
    /\ href_of link <> "./"
    /\ href_of link <> "/"
    /\ href_of link <> "../"
    /\ Str.startswith (href_of link) "?" = false
    /\ Str.contains "Parent Directory" (tag_text link) = false.
Proof.
  intros H Hin.
  destruct (returned_link _ _ _ _ H Hin) as (link & Hl & Hr & Hkept).
  exists link. unfold retained in Hkept. apply negb_true_iff in Hkept.
  apply skip_link_false in Hkept as (? & ? & ? & ? & ? & ?).
  repeat split; assumption.
Qed.

Lemma returned_links_witness :
  let html := "<a href='../'>Parent Directory</a><a href='sub/'>sub/</a>" in
  let items := mkItems [] ["http://h/pub/sub/"] in
  parse_directory_listing (parser := mock_parser) html "http://h/pub" = Some items
  /\ In "http://h/pub/sub/" (files items ++ directories items)
  /\ exists link,
    In link (find_all_a (HtmlParser := mock_parser) html)
    /\ resolved "http://h/pub" link = Some "http://h/pub/sub/"
    /\ href_of link <> ""
    /\ href_of link <> "./"
    /\ href_of link <> "/"
    /\ href_of link <> "../"
    /\ Str.startswith (href_of link) "?" = false
    /\ Str.contains "Parent Directory" (tag_text link) = false.
Proof.
  intros html items.
  assert (parse_directory_listing (parser := mock_parser) html "http://h/pub" = Some items)
    as H by reflexivity.
  assert (In "http://h/pub/sub/" (files items ++ directories items)) as Hin
    by (left; reflexivity).
  split; [exact H|]. split; [exact Hin|].
  exact (returned_links_are_not_discarded (parser := mock_parser) _ _ _ _ H Hin).
Defined.

(** C6: the guard of line 43, commented "Skip parent directory and self
    references", lets one self reference through.  The targets [./] and the
    empty one are skipped, and so is the parent [../]; the target [.], which
    refers to the page as [./] does, is kept: the parser returns the URL of
    the page itself, as a file, and the crawl puts it on the queue. *)
Theorem dot_target_is_returned :
  find_all_a (HtmlParser := mock_parser) "<a href='.'>here</a>"
    = [mkTag (Some ".") "here"]
  /\ skip_link "." "here" = false
  /\ parse_directory_listing (parser := mock_parser) "<a href='.'>here</a>" "http://h/pub"
     = Some (mkItems ["http://h/pub/"] [])
  /\ parse_directory_listing (parser := mock_parser)
       "<a href='./'>here</a><a href=''>here</a><a href='../'>up</a>" "http://h/pub"
     = Some no_items
  /\ resolved "http://h/pub" (mkTag (Some "./") "here") = Some "http://h/pub/"
  /\ work_items "./out" (mkItems ["http://h/pub/"] []) = [("http://h/pub/", "./out/pub")].
Proof. split_and!; reflexivity. Qed.

(** ** Download worker *)

Section Download.
Context {W : Type} {parser : HtmlParser} {os : Collaborators W}.

Implicit Types self : Downloader W.

Lemma set_world_same self : set_world (world self) self = self.
Proof. destruct self; reflexivity. Qed.

Lemma world_only_ret {A} (a : A) : world_only (W:=W) (ret a).
Proof. intros self self' r [= <- <-]. exists (world self). symmetry. apply set_world_same. Qed.

Lemma world_only_raise {A} : world_only (W:=W) (raise (A:=A)).
Proof. intros self self' r [= <- <-]. exists (world self). symmetry. apply set_world_same. Qed.

Lemma world_only_gets {A} (f : Downloader W -> A) : world_only (W:=W) (gets f).
Proof. intros self self' r [= <- <-]. exists (world self). symmetry. apply set_world_same. Qed.

Lemma world_only_call {A} (op : W -> W * option A) : world_only (W:=W) (call op).
Proof.
  intros self self' r. unfold call. destruct (op (world self)) as [w x].
  intros [= <- <-]. eauto.
Qed.

Lemma world_only_bind {A B} (m : M (W:=W) A) (k : A -> M (W:=W) B) :
  world_only m -> (forall a, world_only (k a)) -> world_only (bind m k).
Proof.
  intros Hm Hk self self' r. unfold bind.
  destruct (m self) as [s1 [a|]] eqn:E; apply Hm in E as [w ->].
  - intros H. apply Hk in H as [w' ->]. eauto.
  - intros [= <- <-]. eauto.
Qed.

Lemma world_only_if {A} (b : bool) (m1 m2 : M (W:=W) A) :
  world_only m1 -> world_only m2 -> world_only (W:=W) (if b then m1 else m2).
Proof. destruct b; trivial. Qed.

Create HintDb world_only.
#[local] Hint Resolve world_only_ret world_only_raise world_only_gets world_only_call
  world_only_if : world_only.

Lemma world_only_write_chunks (local_path : string) (chunks : list string) :
  world_only (W:=W) (write_chunks local_path chunks).
Proof.
  induction chunks as [|chunk rest IH]; cbn [write_chunks]; auto with world_only.
  apply world_only_bind; auto with world_only.
Qed.

Lemma world_only_raise_for_status (response : Response) :
  world_only (W:=W) (raise_for_status response).
Proof. unfold raise_for_status. auto with world_only. Qed.

Lemma world_only_response_text (response : Response) :
  world_only (W:=W) (response_text response).
Proof. unfold response_text. auto with world_only. Qed.

Lemma world_only_is_listing (response : Response) : world_only (W:=W) (is_listing response).
Proof.
  unfold is_listing. apply world_only_if; auto with world_only.
  apply world_only_bind; auto using world_only_response_text with world_only.
Qed.

Lemma world_only_save (local_path : string) (response : Response) :
  world_only (W:=W) (save local_path response).
Proof.
  unfold save. repeat (apply world_only_bind; [|intros ?]);
    auto using world_only_write_chunks with world_only.
Qed.

Lemma world_only_exists_with_content (local_path : string) :
  world_only (W:=W) (exists_with_content local_path).
Proof.
  unfold exists_with_content. apply world_only_bind; [auto with world_only|].
  intros []; auto with world_only.
  apply world_only_bind; auto with world_only.
Qed.

(** What a step of [bind] was. *)
Lemma bind_inv {A B} (m : M (W:=W) A) (k : A -> M (W:=W) B) self self' r :
  bind m k self = (self', r) ->
  (exists a s1, m self = (s1, Some a) /\ k a s1 = (self', r))
  \/ (m self = (self', None) /\ r = None).
Proof.
  unfold bind. destruct (m self) as [s1 [a|]]; [eauto|].
  intros [= <- <-]. eauto.
Qed.

Lemma stateless_raise_for_status (response : Response) :
  stateless (W:=W) (raise_for_status response).
Proof.
  intros self self' r. unfold raise_for_status, raise, ret.
  destruct (_ && _); intros [= <- <-]; reflexivity.
Qed.

Lemma stateless_is_listing (response : Response) : stateless (W:=W) (is_listing response).
Proof.
  intros self self' r. unfold is_listing, response_text, bind, raise, ret.
  destruct (Str.contains _ _); [destruct (stream_error response)|];
    intros [= <- <-]; reflexivity.
Qed.

Lemma get_effect (url : string) self :
  get url self =
  (set_world (fst (session_get url (world self))) (log (Get url) self),
   snd (session_get url (world self))).
Proof.
  unfold get, bind, modify, call. cbn.
  destruct (session_get url (world self)); reflexivity.
Qed.

(** The three ways out of [fetch]: the file is written and recorded, an
    exception is raised, or the response is a listing in disguise and
    nothing is written. *)
Lemma fetch_effect (file_url local_path : string) self self' r :
  fetch file_url local_path self = (self', r) ->
  (exists w,
    (r = Some true
     /\ self' = downloaded_add file_url (set_world w (log (Get file_url) self)))
    \/ (r = None /\ self' = set_world w (log (Get file_url) self)))
  \/ (r = Some false
      /\ self' = log (Skipping file_url)
                   (set_world (fst (session_get file_url (world self)))
                      (log (Get file_url) self))).
Proof.
  unfold fetch. intros H.
  apply bind_inv in H as [(response & s1 & Hget & H) | [Hget ->]];
    rewrite get_effect in Hget; injection Hget as <- Hresp;
    [|left; eauto].
  apply bind_inv in H as [([] & s2 & Hst & H) | [Hst ->]];
    apply stateless_raise_for_status in Hst as ->; [|left; eauto].
  apply bind_inv in H as [(listing & s3 & Hl & H) | [Hl ->]];
    apply stateless_is_listing in Hl as ->; [|left; eauto].
  destruct listing.
  - right. injection H as <- <-. split; reflexivity.
  - left.
    apply bind_inv in H as [([] & s4 & Hs & H) | [Hs ->]];
      apply world_only_save in Hs as [w ->]; [|eauto].
    apply bind_inv in H as [(good & s5 & He & H) | [He ->]];
      apply world_only_exists_with_content in He as [w' ->]; [|eauto].
    destruct good; injection H as <- <-; eauto.
Qed.

(** The ways out of the [try]. *)
Lemma attempt_effect (file_url local_path : string) self self' r :
  attempt file_url local_path self = (self', r) ->
  (r = Some true /\ file_url ∈ downloaded_files self /\ self' = self)
  \/ ((file_url ∉ downloaded_files self) /\ (exists w,
       (r = Some true /\ self' = downloaded_add file_url (set_world w self)
        /\ os_makedirs (OsPath.dirname local_path) (world self) = (w, Some tt)
        /\ os_path_exists local_path w = true)
       \/ (r = None /\ self' = set_world w self)
       \/ (r = Some true
           /\ self' = downloaded_add file_url (set_world w (log (Get file_url) self)))
       \/ (r = None /\ self' = set_world w (log (Get file_url) self))
       \/ (r = Some false
           /\ self' = log (Skipping file_url) (set_world w (log (Get file_url) self))))).
Proof.
  unfold attempt. intros H.
  apply bind_inv in H as [(known & s1 & Hk & H) | [Hk _]]; [|discriminate Hk].
  injection Hk as <- <-.
  destruct (bool_decide _) eqn:Hknown.
  { injection H as <- <-. left. apply bool_decide_eq_true in Hknown. auto. }
  right. apply bool_decide_eq_false in Hknown. split; [exact Hknown|].
  apply bind_inv in H as [([] & s1 & Hmk & H) | [Hmk ->]].
  2:{ apply world_only_call in Hmk as [w ->]. eauto. }
  unfold call in Hmk.
  destruct (os_makedirs (OsPath.dirname local_path) (world self)) as [w1 x] eqn:Emk.
  injection Hmk as <- ->.
  apply bind_inv in H as [(there & s2 & Ht & H) | [Ht _]]; [|discriminate Ht].
  injection Ht as <- <-. cbn in H.
  destruct (os_path_exists local_path w1) eqn:Hthere.
  { injection H as <- <-. exists w1. left. auto. }
  apply fetch_effect in H as [[w [[-> ->]|[-> ->]]] | [-> ->]]; cbn.
  - exists w. right; right; left. split; reflexivity.
  - exists w. right; right; right; left. split; reflexivity.
  - eexists. right; right; right; right. split; reflexivity.
Qed.

Lemma on_failure_effect (file_url local_path : string) self self' r :
  on_failure file_url local_path self = (self', r) ->
  r <> Some true /\ exists w, self' = set_world w (failed_add file_url self).
Proof.
  unfold on_failure. intros H.
  apply bind_inv in H as [([] & s1 & Hm & H) | [Hm _]]; [|discriminate Hm].
  injection Hm as <-.
  apply bind_inv in H as [(there & s2 & Ht & H) | [Ht _]]; [|discriminate Ht].
  injection Ht as <- <-.
  apply bind_inv in H as [([] & s3 & Hr & H) | [Hr ->]].
  - injection H as <- <-. split; [discriminate|].
    destruct (os_path_exists _ _).
    + apply world_only_call in Hr as [w ->]. eauto.
    + injection Hr as <-. exists (world self). destruct self; reflexivity.
  - split; [discriminate|].
    destruct (os_path_exists _ _); [|discriminate Hr].
    apply world_only_call in Hr as [w ->]. eauto.
Qed.

(** What one call of [download_file] does to the object. *)
Lemma download_file_effect (file_url local_path : string) self self' r :
  download_file file_url local_path self = (self', r) ->
  base_url self' = base_url self
  /\ output_dir self' = output_dir self
  /\ scanned_dirs self' = scanned_dirs self
  /\ file_queue self' = file_queue self
  /\ (exists more, trace self' = trace self ++ more
     /\ ((r = Some true
          /\ downloaded_files self' = {[file_url]} ∪ downloaded_files self
          /\ failed_downloads self' = failed_downloads self)
         \/ (r <> Some true
             /\ (file_url ∉ downloaded_files self)
             /\ downloaded_files self' = downloaded_files self
             /\ failed_downloads self' = {[file_url]} ∪ failed_downloads self)
         \/ (r = Some false
             /\ downloaded_files self' = downloaded_files self
             /\ failed_downloads self' = failed_downloads self
             /\ more = [Get file_url; Skipping file_url]))).
Proof.
  unfold download_file, try_except.
  destruct (attempt file_url local_path self) as [s1 [a|]] eqn:Ha;
    apply attempt_effect in Ha.
  - intros [= <- <-].
    destruct Ha as [([= ->] & Hin & ->) | (Hnew & w & [([= ->] & -> & _) | [(? & _) | [([= ->] & ->) | [(? & _) | ([= ->] & ->)]]]])];
      try discriminate; cbn.
    + repeat split. exists []. rewrite app_nil_r. split; [reflexivity|].
      left. repeat split. set_solver.
    + repeat split. exists []. rewrite app_nil_r. split; [reflexivity|].
      left. repeat split.
    + repeat split. exists [Get file_url]. split; [reflexivity|].
      left. repeat split.
    + repeat split. exists [Get file_url; Skipping file_url].
      rewrite <- app_assoc. split; [reflexivity|].
      right; right. repeat split.
  - intros Hf. apply on_failure_effect in Hf as [Hr [w' ->]].
    destruct Ha as [(? & _) | (Hnew & w & [(? & _) | [(_ & ->) | [(? & _) | [(_ & ->) | (? & _)]]]])];
      try discriminate; cbn.
    + repeat split. exists []. rewrite app_nil_r. split; [reflexivity|].
      right; left. repeat split; assumption.
    + repeat split. exists [Get file_url]. split; [reflexivity|].
      right; left. repeat split; assumption.
Qed.

(** What a worker does to the object over a list of items. *)
Lemma worker_effect (items : list (string * string)) self self' r :
  worker items self = (self', r) ->
  downloaded_files self ⊆ downloaded_files self'
  /\ failed_downloads self ⊆ failed_downloads self'
  /\ file_queue self' = file_queue self
  /\ (exists more, trace self' = trace self ++ more
     /\ (r = Some tt ->
         forall item, In item items ->
           fst item ∈ downloaded_files self'
           \/ fst item ∈ failed_downloads self'
           \/ In (Skipping (fst item)) more)
     /\ (NoDup (map fst items) ->
         downloaded_files self ## failed_downloads self ->
         (forall item, In item items -> fst item ∉ failed_downloads self) ->
         downloaded_files self' ## failed_downloads self')).
Proof.
  revert self. induction items as [|[file_url local_path] rest IH]; intros self H.
  - injection H as <- <-. repeat split; [set_solver | set_solver |].
    exists []. rewrite app_nil_r. repeat split; [intros _ ? [] | auto].
  - cbn [worker] in H.
    apply bind_inv in H as [(b & s1 & Hd & H) | [Hd ->]].
    + apply download_file_effect in Hd as (_ & _ & _ & Hq & more1 & Htr & Hcase).
      apply IH in H as (HD & HF & Hq' & more2 & Htr' & Hall & Hdisj).
      assert (downloaded_files self ⊆ downloaded_files s1
              /\ failed_downloads self ⊆ failed_downloads s1) as [HD1 HF1].
      { destruct Hcase as [(_ & -> & ->) | [(_ & _ & -> & ->) | (_ & -> & -> & _)]];
          split; set_solver. }
      repeat split; [set_solver | set_solver | congruence |].
      exists (more1 ++ more2). rewrite Htr', Htr, app_assoc.
      repeat split.
      * intros Hr item [<- | Hin]; cbn [fst].
        -- destruct Hcase as [(_ & HD1' & _) | [(_ & _ & _ & HF1') | (_ & _ & _ & ->)]].
           ++ left. set_solver.
           ++ right; left. set_solver.
           ++ right; right. apply in_app_iff. left. right; left. reflexivity.
        -- destruct (Hall Hr item Hin) as [?|[?|?]]; auto.
           right; right. apply in_app_iff. auto.
      * intros Hnd Hdis Hfresh. cbn [map fst] in Hnd.
        apply NoDup_cons in Hnd as [Hnotin Hnd].
        apply Hdisj; [exact Hnd | |].
        -- pose proof (Hfresh (file_url, local_path) (or_introl eq_refl)) as Hu.
           cbn [fst] in Hu.
           destruct Hcase as [(_ & E1 & E2) | [(_ & Hnew & E1 & E2) | (_ & E1 & E2 & _)]];
             rewrite ?E1, ?E2; set_solver.
        -- intros item Hin.
           pose proof (Hfresh item (or_intror Hin)) as Hi.
           assert (fst item <> file_url) as Hne.
           { intros Heq. apply Hnotin. rewrite <- Heq.
             apply list_elem_of_In, in_map, Hin. }
           destruct Hcase as [(_ & E1 & E2) | [(_ & Hnew & E1 & E2) | (_ & E1 & E2 & _)]];
             rewrite ?E1, ?E2; set_solver.
    + apply download_file_effect in Hd as (_ & _ & _ & Hq & more1 & Htr & Hcase).
      destruct Hcase as [(? & _) | [(_ & Hnew & HD & HF) | (? & _)]]; try discriminate.
      repeat split; [set_solver | set_solver | exact Hq |].
      exists more1. repeat split; [exact Htr | discriminate |].
      intros Hnd Hdis Hfresh.
      pose proof (Hfresh (file_url, local_path) (or_introl eq_refl)) as Hu.
      cbn [fst] in Hu. set_solver.
Qed.

End Download.

(** C2, as amended: when the queue is drained, every item that was on it has
    its URL in [downloaded_files] or in [failed_downloads], unless its
    response was taken for a directory listing in disguise (the message of
    line 91 names it); and when the URLs on the queue are pairwise distinct
    and none of them was recorded as failed before, no URL is in both sets. *)
Theorem drained_queue_accounts_for_items {W : Type} {os : Collaborators W}
    (self self' : Downloader W) :
  drain self = (self', Some tt) ->
  exists more,
    trace self' = trace self ++ more
    /\ (forall item, In item (file_queue self) ->
          fst item ∈ downloaded_files self'
          \/ fst item ∈ failed_downloads self'
          \/ In (Skipping (fst item)) more)
    /\ (NoDup (map fst (file_queue self)) ->
        downloaded_files self ## failed_downloads self ->
        (forall item, In item (file_queue self) -> fst item ∉ failed_downloads self) ->
        downloaded_files self' ## failed_downloads self').
Proof.
  unfold drain, bind, gets, modify. intros H.
  apply worker_effect in H as (_ & _ & _ & more & Htr & Hall & Hdisj).
  exists more. repeat split; [exact Htr | auto | exact Hdisj].
Qed.

(** The skip of lines 79 to 82, whatever the disk and the session: a file
    whose target path is on the disk when its turn comes is recorded in
    [downloaded_files] without a GET and without a write. *)
Lemma file_on_disk_is_not_fetched {W : Type} {os : Collaborators W}
    (file_url local_path : string) (self : Downloader W) (w : W) :
  file_url ∉ downloaded_files self ->
  os_makedirs (OsPath.dirname local_path) (world self) = (w, Some tt) ->
  os_path_exists local_path w = true ->
  download_file file_url local_path self
    = (downloaded_add file_url (set_world w self), Some true)
  /\ fetches (trace (fst (download_file file_url local_path self))) = fetches (trace self)
  /\ world (fst (download_file file_url local_path self)) = w
  /\ file_url ∈ downloaded_files (fst (download_file file_url local_path self)).
Proof.
  intros Hnew Hmk Hthere.
  assert (download_file file_url local_path self
          = (downloaded_add file_url (set_world w self), Some true)) as E.
  { unfold download_file, try_except, attempt, bind, gets, call, modify, ret.
    rewrite bool_decide_eq_false_2 by exact Hnew.
    rewrite Hmk. cbn. rewrite Hthere. reflexivity. }
  rewrite E. cbn. repeat split. set_solver.
Qed.

Lemma drained_queue_witness :
  let self := idle "http://h/pub" [("http://h/pub/f.txt?v=1", "./out/pub/f.txt");
                    ("http://h/pub/f.txt", "./out/pub/f.txt")] ∅ in
  let self' := fst (drain (os := mock site_two_names) self) in
  drain (os := mock site_two_names) self = (self', Some tt)
  /\ exists more,
    trace self' = trace self ++ more
    /\ (forall item, In item (file_queue self) ->
          fst item ∈ downloaded_files self'
          \/ fst item ∈ failed_downloads self'
          \/ In (Skipping (fst item)) more)
    /\ (NoDup (map fst (file_queue self)) ->
        downloaded_files self ## failed_downloads self ->
        (forall item, In item (file_queue self) -> fst item ∉ failed_downloads self) ->
        downloaded_files self' ## failed_downloads self').
Proof.
  intros self self'.
  assert (drain (os := mock site_two_names) self
          = (self', Some tt)) as H by (vm_compute; reflexivity).
  split; [exact H|].
  exact (drained_queue_accounts_for_items (os := mock site_two_names) self self' H).
Defined.

(** C2, as stated, fails: a URL that is on the queue twice can fail at its
    first turn and find the file of another URL at its second; it is then
    in both sets when the queue is drained. *)
Lemma url_in_both_sets :
  exists self,
    run (parser := mock_parser) (os := mock site_linked_twice) 5
        "http://h/pub" "./out" ∅ = Some (self, Some tt)
    /\ file_queue self = []
    /\ "http://h/pub/f.txt?v=1" ∈ downloaded_files self
    /\ "http://h/pub/f.txt?v=1" ∈ failed_downloads self.
Proof.
  eexists. split; [vm_compute; reflexivity|].
  repeat split; vm_compute; reflexivity.
Qed.

(** C3: a response taken for a directory listing in disguise is written
    nowhere, and it is recorded nowhere either: [download_file] returns
    [False] and leaves [failed_downloads] as it was. *)
Theorem disguised_listing_is_not_recorded :
  let self := idle "http://h/pub" [] ∅ in
  let result := download_file (os := mock site_unslashed)
                  "http://h/pub/sub" "./out/pub/sub" self in
  snd result = Some false
  /\ trace (fst result) = [Get "http://h/pub/sub"; Skipping "http://h/pub/sub"]
  /\ world (fst result) = ∅
  /\ failed_downloads (fst result) = ∅
  /\ downloaded_files (fst result) = ∅.
Proof. repeat split. Qed.

Lemma file_on_disk_witness :
  let self := idle "http://h/pub" [] {["./out/pub/f.txt" := "data"]} in
  let result := download_file (os := mock site_two_names)
                  "http://h/pub/f.txt" "./out/pub/f.txt" self in
  ("http://h/pub/f.txt" ∉ downloaded_files self)
  /\ result = (downloaded_add "http://h/pub/f.txt" (set_world (world self) self), Some true)
  /\ fetches (trace (fst result)) = fetches (trace self)
  /\ world (fst result) = world self
  /\ "http://h/pub/f.txt" ∈ downloaded_files (fst result).
Proof.
  intros self result.
  assert ("http://h/pub/f.txt" ∉ downloaded_files self) as Hnew by set_solver.
  split; [exact Hnew|].
  apply (file_on_disk_is_not_fetched (os := mock site_two_names)
           "http://h/pub/f.txt" "./out/pub/f.txt" self (world self) Hnew);
    reflexivity.
Defined.


(** ** Crawler *)

Section Crawl.
Context {W : Type} {parser : HtmlParser} {os : Collaborators W}.

Implicit Types self : Downloader W.

(** The listing of a directory costs one GET, whatever comes of it. *)
Lemma get_directory_contents_effect (url : string) self :
  fst (get_directory_contents url self) =
  log (Listed url (snd (get_directory_contents url self)))
    (set_world (fst (session_get url (world self))) (log (Get url) self)).
Proof.
  unfold get_directory_contents, scan_directory, bind, get, modify, call,
    raise_for_status, response_text, raise, ret.
  cbn. destruct (session_get url (world self)) as [w [response|]]; [|reflexivity].
  destruct (_ && _); [reflexivity|].
  destruct (stream_error response); [reflexivity|].
  destruct (parse_directory_listing _ _); reflexivity.
Qed.

Lemma get_local_path_parsed (output_dir url : string) :
  is_Some (Url.urlparse url) -> is_Some (get_local_path output_dir url).
Proof. unfold get_local_path. intros [parsed ->]. eauto. Qed.

Lemma get_local_path_rejected (output_dir url : string) :
  get_local_path output_dir url = None -> Url.urlparse url = None.
Proof. unfold get_local_path. destruct (Url.urlparse url); [discriminate | reflexivity]. Qed.

(** When [urlparse] accepts every file, every file is put on the queue. *)
Lemma queued_all (output_dir : string) (file_urls : list string) :
  Forall (fun file_url => is_Some (Url.urlparse file_url)) file_urls ->
  map fst (queued output_dir file_urls) = file_urls.
Proof.
  induction 1 as [|f rest Hf _ IH]; [reflexivity|].
  cbn [queued]. destruct (get_local_path_parsed output_dir f Hf) as [p ->].
  cbn [map fst]. rewrite IH. reflexivity.
Qed.

Lemma enqueue_files_effect (file_urls : list string) self :
  enqueue_files file_urls self =
  (mkDownloader (base_url self) (output_dir self) (downloaded_files self)
     (failed_downloads self) (scanned_dirs self)
     (file_queue self ++ queued (output_dir self) file_urls)
     (trace self ++ map Put (queued (output_dir self) file_urls))
     (world self),
   if bool_decide (Forall (fun file_url => is_Some (Url.urlparse file_url)) file_urls)
   then Some tt else None).
Proof.
  revert self. induction file_urls as [|f rest IH]; intros self.
  - cbn. rewrite !app_nil_r. destruct self; reflexivity.
  - cbn [enqueue_files queued]. unfold bind at 1, gets. cbn beta iota.
    destruct (get_local_path (output_dir self) f) as [p|] eqn:E.
    + assert (is_Some (Url.urlparse f)) as Hf.
      { unfold get_local_path in E. destruct (Url.urlparse f); [eauto | discriminate E]. }
      unfold bind, modify. rewrite IH. cbn.
      rewrite <- !app_assoc. cbn [app]. f_equal.
      destruct (bool_decide (Forall _ rest)) eqn:Hrest.
      * apply bool_decide_eq_true in Hrest. rewrite bool_decide_eq_true_2; [reflexivity|].
        constructor; [exact Hf | exact Hrest].
      * apply bool_decide_eq_false in Hrest. rewrite bool_decide_eq_false_2; [reflexivity|].
        intros H. apply Hrest. inversion H; assumption.
    + apply get_local_path_rejected in E.
      unfold raise. cbn. rewrite !app_nil_r.
      rewrite bool_decide_eq_false_2.
      * destruct self; reflexivity.
      * intros H. inversion H as [|? ? [? Hf] _]. rewrite E in Hf. discriminate Hf.
Qed.

Lemma crawled_nil self : crawled self [] self.
Proof.
  unfold crawled. cbn. rewrite !app_nil_r.
  repeat split; [set_solver | constructor | intros d []].
Qed.

Lemma crawled_scanned self visits self' :
  crawled self visits self' -> scanned_dirs self ⊆ scanned_dirs self'.
Proof. intros (_ & _ & _ & _ & -> & _). set_solver. Qed.

(** Two crawls, one after the other. *)
Lemma crawled_app self visits1 self1 visits2 self2 :
  crawled self visits1 self1 -> crawled self1 visits2 self2 ->
  crawled self (visits1 ++ visits2) self2.
Proof.
  intros (B1 & O1 & D1 & F1 & S1 & Q1 & T1 & N1 & X1)
         (B2 & O2 & D2 & F2 & S2 & Q2 & T2 & N2 & X2).
  unfold crawled.
  rewrite !map_app, !flat_map_app, !app_assoc, list_to_set_app_L.
  rewrite O1 in Q2, T2.
  do 4 (split; [congruence|]).
  split; [rewrite S2, S1; set_solver|].
  split; [rewrite Q2, Q1; reflexivity|].
  split; [rewrite T2, T1; reflexivity|].
  split.
  - apply NoDup_app. repeat split; [exact N1 | | exact N2].
    intros d Hd1 Hd2. apply list_elem_of_In in Hd1, Hd2.
    apply (X2 d Hd2). rewrite S1.
    apply elem_of_union_l, elem_of_list_to_set, list_elem_of_In, Hd1.
  - intros d Hd. apply in_app_iff in Hd as [Hd|Hd]; [auto|].
    intros Hin. apply (X2 d Hd). rewrite S1. set_solver.
Qed.

Lemma explored_mono visits self1 self2 :
  scanned_dirs self1 ⊆ scanned_dirs self2 ->
  explored visits self1 -> explored visits self2.
Proof. intros Hsub H visit Hv d Hd. apply Hsub, (H visit Hv d Hd). Qed.

Lemma explored_app visits1 visits2 self :
  explored visits1 self -> explored visits2 self -> explored (visits1 ++ visits2) self.
Proof.
  intros H1 H2 visit Hv. apply in_app_iff in Hv as [Hv|Hv]; [apply H1 | apply H2]; exact Hv.
Qed.

(** The first part of a visit: the directory is marked, listed, and its
    files are put on the queue. *)
Lemma visit_crawled (url : string) self :
  url ∉ scanned_dirs self ->
  let listing := get_directory_contents url (scanned_add url self) in
  crawled self [(url, snd listing)]
    (fst (enqueue_files (files (snd listing)) (fst listing))).
Proof.
  intros Hnew listing. subst listing.
  rewrite enqueue_files_effect, get_directory_contents_effect.
  set (items := snd (get_directory_contents url (scanned_add url self))).
  unfold crawled, block, work_items. cbn. rewrite !app_nil_r.
  repeat split.
  - set_solver.
  - rewrite <- !app_assoc. reflexivity.
  - apply NoDup_singleton.
  - intros d [<- | []]. exact Hnew.
Qed.

(** *** Depth first *)

Lemma depth_first_nil (seen : gset string) (visits : list (string * Items)) :
  depth_first seen [] visits -> visits = [].
Proof. intros H. inversion H. reflexivity. Qed.

(** The traversal below a directory, then the traversal below its
    siblings. *)
Lemma depth_first_cons (seen : gset string) (d : string) (rest : list string)
    (visits1 visits2 : list (string * Items)) :
  depth_first seen [d] visits1 ->
  depth_first (list_to_set (map fst visits1) ∪ seen) rest visits2 ->
  depth_first seen (d :: rest) (visits1 ++ visits2).
Proof.
  intros H1 H2. inversion H1 as [|? ? ? Hin Hrest|? items ? below after Hnew Hbelow Hafter];
    subst.
  - apply depth_first_nil in Hrest as ->.
    cbn in H2. rewrite (left_id_L ∅ (∪)) in H2.
    apply depth_first_marked; assumption.
  - apply depth_first_nil in Hafter as ->. rewrite app_nil_r in *.
    cbn [app]. apply depth_first_visit; [exact Hnew | exact Hbelow|].
    replace (list_to_set (map fst below) ∪ ({[d]} ∪ seen))
      with (list_to_set (map fst ((d, items) :: below)) ∪ seen); [exact H2|].
    cbn. set_solver.
Qed.

(** The loop over the subdirectories, given what one crawl does. *)
Lemma crawl_each_crawled
    (crawl : string -> Downloader W -> option (Downloader W * option unit)) :
  (forall url self self' r,
      crawl url self = Some (self', r) ->
      exists visits,
        crawled self visits self' /\ url ∈ scanned_dirs self'
        /\ crawl_outcome self [url] visits self' r) ->
  forall dir_urls self self' r,
    crawl_each crawl dir_urls self = Some (self', r) ->
    exists visits,
      crawled self visits self'
      /\ (r = Some tt -> forall d, In d dir_urls -> d ∈ scanned_dirs self')
      /\ crawl_outcome self dir_urls visits self' r.
Proof.
  intros Hcrawl dir_urls. induction dir_urls as [|d rest IH]; intros self self' r H.
  - injection H as <- <-. exists [].
    split_and!; [apply crawled_nil | intros _ ? [] |].
    split_and!; [intros ? [] | constructor | constructor].
  - cbn [crawl_each] in H.
    destruct (crawl d self) as [[self1 [[]|]]|] eqn:E; [| |discriminate H].
    + apply Hcrawl in E as (visits1 & C1 & Hd & E1 & W1 & DF1).
      apply IH in H as (visits2 & C2 & Hrest & O2).
      pose proof (crawled_scanned _ _ _ C2) as Hsub.
      exists (visits1 ++ visits2).
      split_and!; [exact (crawled_app _ _ _ _ _ C1 C2) | |].
      * intros Hr d' [<- | Hin]; [apply Hsub, Hd | apply (Hrest Hr), Hin].
      * destruct r as [[]|]; cbn [crawl_outcome] in *.
        -- destruct O2 as (E2 & W2 & DF2). split_and!.
           ++ apply explored_app; [exact (explored_mono _ _ _ Hsub E1) | exact E2].
           ++ apply Forall_app. split; assumption.
           ++ apply depth_first_cons; [exact DF1|].
              destruct C1 as (_ & _ & _ & _ & <- & _). exact DF2.
        -- destruct O2 as (visit & f & Hin & Hf & Hbad).
           exists visit, f. split_and!; [apply in_app_iff; right; exact Hin | exact Hf | exact Hbad].
    + injection H as <- <-.
      apply Hcrawl in E as (visits1 & C1 & Hd & O1).
      exists visits1. split_and!; [exact C1 | discriminate|].
      cbn [crawl_outcome] in *. exact O1.
Qed.

(** What a crawl that ends has done. *)
Lemma crawl_directory_crawled (fuel : nat) (url : string) self self' r :
  crawl_directory fuel url self = Some (self', r) ->
  exists visits,
    crawled self visits self' /\ url ∈ scanned_dirs self'
    /\ crawl_outcome self [url] visits self' r.
Proof.
  revert url self self' r. induction fuel as [|fuel IH]; intros url self self' r H;
    [discriminate|].
  cbn [crawl_directory] in H.
  destruct (bool_decide (url ∈ scanned_dirs self)) eqn:Hseen.
  - injection H as <- <-. apply bool_decide_eq_true in Hseen.
    exists []. split_and!; [apply crawled_nil | exact Hseen |].
    split_and!; [intros ? [] | constructor |].
    apply depth_first_marked; [exact Hseen | constructor].
  - apply bool_decide_eq_false in Hseen.
    pose proof (visit_crawled url self Hseen) as C1. cbn zeta in C1.
    destruct (get_directory_contents url (scanned_add url self)) as [self2 contents].
    cbn [fst snd] in C1.
    rewrite enqueue_files_effect in H, C1. cbn [fst] in C1.
    destruct (bool_decide (Forall _ (files contents))) eqn:Hwf.
    + apply bool_decide_eq_true in Hwf.
      apply (crawl_each_crawled _ IH) in H as (visits & C2 & Hdirs & O2).
      pose proof (crawled_scanned _ _ _ C2) as Hsub.
      exists ((url, contents) :: visits).
      split_and!; [exact (crawled_app _ _ _ _ _ C1 C2) | |].
      * apply Hsub. destruct C1 as (_ & _ & _ & _ & -> & _). set_solver.
      * destruct r as [[]|]; cbn [crawl_outcome] in *.
        -- destruct O2 as (E2 & W2 & DF2). split_and!.
           ++ intros visit [<- | Hv]; [exact (Hdirs eq_refl) | exact (E2 visit Hv)].
           ++ constructor; [exact Hwf | exact W2].
           ++ rewrite <- (app_nil_r visits).
              apply depth_first_visit; [exact Hseen | | constructor].
              destruct C1 as (_ & _ & _ & _ & S1 & _).
              replace ({[url]} ∪ scanned_dirs self)
                with (list_to_set (map fst [(url, contents)]) ∪ scanned_dirs self)
                by (cbn; set_solver).
              rewrite <- S1. exact DF2.
        -- destruct O2 as (visit & f & Hin & Hf & Hbad).
           exists visit, f. split_and!; [right; exact Hin | exact Hf | exact Hbad].
    + apply bool_decide_eq_false in Hwf. injection H as <- <-.
      exists [(url, contents)].
      split_and!; [exact C1 | destruct C1 as (_ & _ & _ & _ & -> & _); set_solver |].
      cbn [crawl_outcome].
      apply not_Forall_Exists in Hwf; [|intros f; apply _].
      apply Exists_exists in Hwf as (f & Hf & Hbad). apply list_elem_of_In in Hf.
      exists (url, contents), f.
      split_and!; [left; reflexivity | exact Hf |].
      cbn in Hbad. destruct (Url.urlparse f); [destruct Hbad; eauto | reflexivity].
Qed.

(** *** Termination *)



(** *** The order of the trace *)

Lemma fetches_app (l1 l2 : list event) : fetches (l1 ++ l2) = fetches l1 ++ fetches l2.
Proof.
  induction l1 as [|[] l1 IH]; cbn; rewrite ?IH; reflexivity.
Qed.





Lemma rstrip_slashes (n : nat) : Str.rstrip "/" (slashes n) = "".
Proof.
  induction n as [|n IH]; [reflexivity|].
  cbn [slashes Str.rstrip]. rewrite IH. reflexivity.
Qed.

(** Trailing slashes do not show after [rstrip]. *)
Lemma rstrip_trailing_slashes (root : string) (n : nat) :
  Str.rstrip "/" (root +:+ slashes n) = Str.rstrip "/" root.
Proof.
  induction root as [|a root IH].
  - change ("" +:+ slashes n) with (slashes n). rewrite rstrip_slashes. reflexivity.
  - change (String a root +:+ slashes n) with (String a (root +:+ slashes n)).
    cbn [Str.rstrip]. rewrite IH. reflexivity.
Qed.

(** [rstrip] takes slashes from the end and nothing else. *)
Lemma rstrip_spec (s : string) :
  Str.endswith (Str.rstrip "/" s) "/" = false
  /\ exists n, s = Str.rstrip "/" s +:+ slashes n.
Proof.
  induction s as [|a s [IH1 [n IH2]]].
  - split; [reflexivity | exists 0; reflexivity].
  - cbn [Str.rstrip]. destruct (Str.rstrip "/" s) as [|b r] eqn:E.
    + change ("" +:+ slashes n) with (slashes n) in IH2. subst s.
      destruct (Ascii.eqb_spec a "/") as [->|Hne].
      * split; [reflexivity | exists (S n); reflexivity].
      * split; [|exists n; reflexivity].
        cbn [Str.endswith]. rewrite orb_false_r.
        apply String.eqb_neq. congruence.
    + split; [|exists n; rewrite app_cons; congruence].
      change (Str.endswith (String a (String b r)) "/")
        with (String.eqb (String a (String b r)) "/" || Str.endswith (String b r) "/").
      rewrite IH1, orb_false_r. apply String.eqb_neq. discriminate.
Qed.


End Crawl.


(** C9, as amended: a crawl that returns has visited what lies below its
    directory depth first: a directory, then everything below its first
    subdirectory, and so on to the last, before the next sibling; a
    directory that is marked already is passed over, so each is visited at
    most once.  For each visit the trace holds one block, in the order of
    the visits: the mark, the GET, the listing, then every file of the
    listing put on the queue in order, before the block of any other
    directory begins.  Every subdirectory listed in a block is marked when
    the crawl returns. *)
Theorem crawl_is_depth_first {W : Type} {parser : HtmlParser} {os : Collaborators W}
    (fuel : nat) (url : string) (self self' : Downloader W) :
  crawl_directory fuel url self = Some (self', Some tt) ->
  exists visits,
    depth_first (scanned_dirs self) [url] visits
    /\ trace self' = trace self ++ flat_map (block (output_dir self)) visits
    /\ file_queue self' =
         file_queue self ++ flat_map (work_items (output_dir self)) (map snd visits)
    /\ (forall visit, In visit visits ->
          map fst (work_items (output_dir self) (snd visit)) = files (snd visit))
    /\ scanned_dirs self' = list_to_set (map fst visits) ∪ scanned_dirs self
    /\ NoDup (map fst visits)
    /\ (forall d, In d (map fst visits) -> d ∉ scanned_dirs self)
    /\ (forall visit, In visit visits ->
          forall d, In d (directories (snd visit)) -> d ∈ scanned_dirs self')
    /\ url ∈ scanned_dirs self'.
Proof.
  intros H. apply crawl_directory_crawled in H as (visits & C & Hurl & E & Wf & DF).
  destruct C as (_ & _ & _ & _ & S & Q & T & N & X).
  exists visits. split_and!; try assumption.
  intros visit Hv. apply queued_all.
  rewrite Forall_forall in Wf. apply (Wf visit), list_elem_of_In, Hv.
Qed.

(** C10: the constructor strips every trailing slash of the root URL and
    nothing else, and the crawl starts from what is left; so two root URLs
    that differ in their trailing slashes only give the same object and the
    same crawl: the same directories marked, the same items on the queue,
    the same trace. *)
Theorem trailing_slashes_of_root_ignored {W : Type} {parser : HtmlParser}
    {os : Collaborators W} (fuel : nat) (root output_dir : string) (n m : nat) (w : W) :
  init (root +:+ slashes n) output_dir w = init (root +:+ slashes m) output_dir w
  /\ crawl_from fuel (root +:+ slashes n) output_dir w
     = crawl_from fuel (root +:+ slashes m) output_dir w
  /\ match init (root +:+ slashes n) output_dir w with
     | Some self =>
         Str.endswith (base_url self) "/" = false
         /\ (exists k, root +:+ slashes n = base_url self +:+ slashes k)
         /\ (exists k, root = base_url self +:+ slashes k)
         /\ crawl_from fuel (root +:+ slashes n) output_dir w
            = crawl_directory fuel (base_url self) self
     | None => crawl_from fuel (root +:+ slashes n) output_dir w = None
     end.
Proof.
  unfold crawl_from, init. rewrite !rstrip_trailing_slashes.
  split; [reflexivity|]. split; [reflexivity|].
  destruct (os_makedirs output_dir w) as [w' [[]|]]; [|reflexivity].
  cbn [base_url].
  destruct (rstrip_spec root) as [H1 H2].
  destruct (rstrip_spec (root +:+ slashes n)) as [_ H3].
  rewrite rstrip_trailing_slashes in H3.
  split_and!; [exact H1 | exact H3 | exact H2 | reflexivity].
Qed.

(** *** The mock *)




Lemma crawl_is_depth_first_witness :
  let self := idle "http://h/r" [] ∅ in
  exists self',
    crawl_directory (parser := mock_parser) (os := mock site_cycle) 4 "http://h/r" self
      = Some (self', Some tt)
    /\ exists visits,
      depth_first (scanned_dirs self) ["http://h/r"] visits
      /\ trace self' = trace self ++ flat_map (block (output_dir self)) visits
      /\ file_queue self' =
           file_queue self ++ flat_map (work_items (output_dir self)) (map snd visits)
      /\ (forall visit, In visit visits ->
            map fst (work_items (output_dir self) (snd visit)) = files (snd visit))
      /\ scanned_dirs self' = list_to_set (map fst visits) ∪ scanned_dirs self
      /\ NoDup (map fst visits)
      /\ (forall d, In d (map fst visits) -> d ∉ scanned_dirs self)
      /\ (forall visit, In visit visits ->
            forall d, In d (directories (snd visit)) -> d ∈ scanned_dirs self')
      /\ "http://h/r" ∈ scanned_dirs self'.
Proof.
  intros self.
  destruct (crawl_directory (parser := mock_parser) (os := mock site_cycle) 4
              "http://h/r" self) as [[self' [[]|]]|] eqn:E.
  - exists self'. split; [reflexivity|].
    exact (crawl_is_depth_first (parser := mock_parser) (os := mock site_cycle)
             4 "http://h/r" self self' E).
  - vm_compute in E. discriminate E.
  - vm_compute in E. discriminate E.
Defined.

(** C9, as stated, fails where a directory lists one that is already
    marked: [http://h/r/a/b/] lists [http://h/r/a/] as a subdirectory, and
    [http://h/r/a/] was visited before the file of [http://h/r/a/b/] is
    put on the queue. *)
Lemma subdirectory_visited_before_files :
  exists self,
    crawl_from (parser := mock_parser) (os := mock site_cycle) 4 "http://h/r/" "./out" ∅
      = Some (self, Some tt)
    /\ trace self =
       [Scanned "http://h/r"; Get "http://h/r";
        Listed "http://h/r" (mkItems [] ["http://h/r/a/"]);
        Scanned "http://h/r/a/"; Get "http://h/r/a/";
        Listed "http://h/r/a/" (mkItems ["http://h/r/a/one.txt"] ["http://h/r/a/b/"]);
        Put ("http://h/r/a/one.txt", "./out/r/a/one.txt");
        Scanned "http://h/r/a/b/"; Get "http://h/r/a/b/";
        Listed "http://h/r/a/b/" (mkItems ["http://h/r/a/b/two.txt"] ["http://h/r/a/"]);
        Put ("http://h/r/a/b/two.txt", "./out/r/a/b/two.txt")].
Proof. eexists. split; [vm_compute; reflexivity | reflexivity]. Qed.

(** The relation tells the two orders apart: when [r] lists [a] and [b],
    and [a] lists [c], the order [r], [a], [c], [b] is depth first and the
    order [r], [a], [b], [c], level by level, is not. *)
Lemma level_order_is_not_depth_first :
  let r := ("r", mkItems [] ["a"; "b"]) in
  let a := ("a", mkItems [] ["c"]) in
  let b := ("b", mkItems [] []) in
  let c := ("c", mkItems [] []) in
  depth_first ∅ ["r"] [r; a; c; b] /\ ~ depth_first ∅ ["r"] [r; a; b; c].
Proof.
  intros r a b c. split.
  - apply (depth_first_visit _ "r" _ [] [a; c; b] []); [set_solver | | constructor].
    apply (depth_first_visit _ "a" _ ["b"] [c] [b]); [set_solver | |].
    + apply (depth_first_visit _ "c" _ [] [] []); [set_solver | constructor | constructor].
    + apply (depth_first_visit _ "b" _ [] [] []); [set_solver | constructor | constructor].
  - intros H.
    inversion H as [|? ? ? Hin _|? ? ? below after _ Hbelow Hafter Hu Heq]; subst;
      [set_solver|].
    apply depth_first_nil in Hafter as ->. rewrite app_nil_r in *. subst below.
    cbn [directories] in Hbelow.
    inversion Hbelow as [|? ? ? Hin _|? ? ? below after _ Hc _ Hu Heq]; subst;
      [set_solver|].
    cbn [directories] in Hc.
    inversion Hc as [|? ? ? Hin _|? ? ? below' after' _ _ _ Hu' Heq']; subst;
      [set_solver|].
    discriminate.
Qed.

(** * Further properties *)

(** ** More on the download worker *)

Section DownloadMore.
Context {W : Type} {os : Collaborators W}.

Implicit Types self : Downloader W.

(** The [except] block, step by step. *)
Lemma on_failure_steps (file_url local_path : string) self :
  on_failure file_url local_path self =
  if os_path_exists local_path (world self)
  then (set_world (fst (os_remove local_path (world self))) (failed_add file_url self),
        match snd (os_remove local_path (world self)) with
        | Some _ => Some false
        | None => None
        end)
  else (failed_add file_url self, Some false).
Proof.
  unfold on_failure, bind, modify, gets, call, ret. cbn.
  destruct (os_path_exists local_path (world self)); [|reflexivity].
  change (world (failed_add file_url self)) with (world self).
  destruct (os_remove local_path (world self)) as [w [[]|]]; reflexivity.
Qed.

(** What [download_file] adds to the trace. *)
Lemma download_file_trace (file_url local_path : string) self self' r :
  download_file file_url local_path self = (self', r) ->
  exists more,
    trace self' = trace self ++ more
    /\ (more = [] \/ more = [Get file_url]
        \/ more = [Get file_url; Skipping file_url]).
Proof.
  unfold download_file, try_except.
  destruct (attempt file_url local_path self) as [s1 [a|]] eqn:Ha;
    apply attempt_effect in Ha.
  - intros [= <- <-].
    destruct Ha as [(_ & _ & ->) | (_ & w & [(_ & -> & _) | [(_ & ->) | [(_ & ->) | [(_ & ->) | (_ & ->)]]]])];
      cbn.
    + exists []. rewrite app_nil_r. auto.
    + exists []. rewrite app_nil_r. auto.
    + exists []. rewrite app_nil_r. auto.
    + exists [Get file_url]. auto.
    + exists [Get file_url]. auto.
    + exists [Get file_url; Skipping file_url]. rewrite <- app_assoc. auto.
  - intros Hf. apply on_failure_effect in Hf as [_ [w' ->]].
    destruct Ha as [(_ & _ & ->) | (_ & w & [(_ & -> & _) | [(_ & ->) | [(_ & ->) | [(_ & ->) | (_ & ->)]]]])];
      cbn.
    + exists []. rewrite app_nil_r. auto.
    + exists []. rewrite app_nil_r. auto.
    + exists []. rewrite app_nil_r. auto.
    + exists [Get file_url]. auto.
    + exists [Get file_url]. auto.
    + exists [Get file_url; Skipping file_url]. rewrite <- app_assoc. auto.
Qed.

End DownloadMore.

(** The returned value against [downloaded_files]. *)
Lemma download_file_result {W : Type} {os : Collaborators W}
    (file_url local_path : string) (self self' : Downloader W) (r : option bool) :
  download_file file_url local_path self = (self', r) ->
  (r = Some true <-> file_url ∈ downloaded_files self')
  /\ (r <> Some true -> downloaded_files self' = downloaded_files self).
Proof.
  unfold download_file, try_except.
  destruct (attempt file_url local_path self) as [s1 [a|]] eqn:Ha;
    apply attempt_effect in Ha.
  - intros [= <- <-].
    destruct Ha as [([= ->] & Hin & ->) | (Hnew & w & [([= ->] & -> & _) | [(? & _) | [([= ->] & ->) | [(? & _) | ([= ->] & ->)]]]])];
      try discriminate; cbn.
    + split; [tauto | congruence].
    + split; [split; [set_solver | reflexivity] | congruence].
    + split; [split; [set_solver | reflexivity] | congruence].
    + split; [split; [discriminate | intros ?; contradiction] | reflexivity].
  - intros Hf. apply on_failure_effect in Hf as [Hr [w' ->]].
    destruct Ha as [(? & _) | (Hnew & w & [(? & _) | [(_ & ->) | [(? & _) | [(_ & ->) | (? & _)]]]])];
      try discriminate; cbn.
    + split; [split; [contradiction | intros ?; contradiction] | reflexivity].
    + split; [split; [contradiction | intros ?; contradiction] | reflexivity].
Qed.

(** X3: [download_file] returns [True] exactly when the URL is in
    [downloaded_files] afterwards; when it does not, [downloaded_files] is
    as it was. *)
Theorem returns_true_iff_downloaded {W : Type} {os : Collaborators W}
    (file_url local_path : string) (self self' : Downloader W) (r : option bool) :
  download_file file_url local_path self = (self', r) ->
  (r = Some true <-> file_url ∈ downloaded_files self')
  /\ (r <> Some true -> downloaded_files self' = downloaded_files self).
Proof.
  intros H. destruct (download_file_result _ _ _ _ _ H) as [Hiff Hsame].
  split; [exact Hiff | exact Hsame].
Qed.

Lemma returns_true_witness :
  let self := idle "http://h/pub" [] ∅ in
  let result := download_file (os := mock site_two_names)
                  "http://h/pub/f.txt" "./out/pub/f.txt" self in
  result = (fst result, Some true)
  /\ (Some true = Some true <-> "http://h/pub/f.txt" ∈ downloaded_files (fst result))
  /\ (Some true <> Some true -> downloaded_files (fst result) = downloaded_files self).
Proof.
  intros self result.
  assert (result = (fst result, Some true)) as H by (vm_compute; reflexivity).
  split; [exact H|].
  exact (returns_true_iff_downloaded (os := mock site_two_names)
           "http://h/pub/f.txt" "./out/pub/f.txt" self (fst result) (Some true) H).
Defined.

(** X2: when the GET of a file raises or answers with a 4xx or
    5xx status, [download_file] has done one GET and nothing else to the
    world, has added the URL to [failed_downloads] and returns [False]. *)
Theorem failed_fetch_is_recorded {W : Type} {os : Collaborators W}
    (file_url local_path : string) (self : Downloader W) (w1 w2 : W)
    (answer : option Response) :
  file_url ∉ downloaded_files self ->
  os_makedirs (OsPath.dirname local_path) (world self) = (w1, Some tt) ->
  os_path_exists local_path w1 = false ->
  session_get file_url w1 = (w2, answer) ->
  match answer with
  | None => True
  | Some response => 400 <= status_code response < 600
  end ->
  os_path_exists local_path w2 = false ->
  download_file file_url local_path self
  = (failed_add file_url (set_world w2 (log (Get file_url) self)), Some false).
Proof.
  intros Hnew Hmk Hthere Hget Hbad Hafter.
  assert (attempt file_url local_path self
          = (set_world w2 (log (Get file_url) self), None)) as Ha.
  { unfold attempt, bind, gets, call, modify, ret.
    rewrite bool_decide_eq_false_2 by exact Hnew.
    rewrite Hmk. cbn. rewrite Hthere.
    unfold fetch, bind. rewrite get_effect. cbn. rewrite Hget. cbn.
    destruct answer as [response|]; [|reflexivity].
    unfold raise_for_status, raise.
    assert (Nat.leb 400 (status_code response) && Nat.ltb (status_code response) 600 = true)
      as -> by (apply andb_true_iff; split;
                [apply Nat.leb_le | apply Nat.ltb_lt]; lia).
    reflexivity. }
  unfold download_file, try_except. rewrite Ha, on_failure_steps. cbn.
  rewrite Hafter. reflexivity.
Qed.

Lemma failed_fetch_witness :
  let self := idle "http://h/pub" [] ∅ in
  ("http://h/pub/f.txt?v=1" ∉ downloaded_files self)
  /\ download_file (os := mock site_two_names)
       "http://h/pub/f.txt?v=1" "./out/pub/f.txt" self
     = (failed_add "http://h/pub/f.txt?v=1"
          (set_world ∅ (log (Get "http://h/pub/f.txt?v=1") self)), Some false).
Proof.
  intros self.
  assert ("http://h/pub/f.txt?v=1" ∉ downloaded_files self) as Hnew by set_solver.
  split; [exact Hnew|].
  apply (failed_fetch_is_recorded (os := mock site_two_names)
           "http://h/pub/f.txt?v=1" "./out/pub/f.txt" self ∅ ∅ (Some not_found) Hnew);
    try reflexivity.
  cbn. lia.
Defined.

(** X4: an exception leaves [download_file] only from the
    [os.remove] of the [except] block; the URL is then already in
    [failed_downloads] and not in [downloaded_files]. *)
Theorem download_file_raises_only_in_cleanup {W : Type} {os : Collaborators W}
    (file_url local_path : string) (self self' : Downloader W) :
  download_file file_url local_path self = (self', None) ->
  file_url ∈ failed_downloads self'
  /\ (file_url ∉ downloaded_files self')
  /\ exists w, os_path_exists local_path w = true
               /\ os_remove local_path w = (world self', None).
Proof.
  intros H.
  destruct (download_file_result _ _ _ _ _ H) as [Hiff Hsame].
  assert (file_url ∉ downloaded_files self') as Hnot
    by (intros Hin; apply Hiff in Hin; discriminate).
  revert H. unfold download_file, try_except.
  destruct (attempt file_url local_path self) as [s1 [a|]] eqn:Ha; [discriminate|].
  rewrite on_failure_steps.
  destruct (os_path_exists local_path (world s1)) eqn:Hthere; [|discriminate].
  destruct (os_remove local_path (world s1)) as [w [[]|]] eqn:Hrm; [discriminate|].
  cbn. intros [= <-]. cbn.
  split; [set_solver|]. split; [exact Hnot|].
  exists (world s1). split; [exact Hthere | exact Hrm].
Qed.

Lemma download_file_raises_witness :
  let self := idle "http://h/pub" [] ∅ in
  let result := download_file (os := mock_no_remove site_empty_file)
                  "http://h/pub/empty.txt" "./out/pub/empty.txt" self in
  result = (fst result, None)
  /\ "http://h/pub/empty.txt" ∈ failed_downloads (fst result)
  /\ ("http://h/pub/empty.txt" ∉ downloaded_files (fst result))
  /\ exists w, os_path_exists (Collaborators := mock_no_remove site_empty_file)
                 "./out/pub/empty.txt" w = true
               /\ os_remove (Collaborators := mock_no_remove site_empty_file)
                    "./out/pub/empty.txt" w = (world (fst result), None).
Proof.
  intros self result.
  assert (result = (fst result, None)) as H by (vm_compute; reflexivity).
  split; [exact H|].
  exact (download_file_raises_only_in_cleanup (os := mock_no_remove site_empty_file)
           "http://h/pub/empty.txt" "./out/pub/empty.txt" self (fst result) H).
Defined.

(** What a worker can fetch and record. *)
Lemma worker_bounds {W : Type} {os : Collaborators W}
    (items : list (string * string)) (self self' : Downloader W) (r : option unit) :
  worker items self = (self', r) ->
  exists more,
    trace self' = trace self ++ more
    /\ length (fetches more) <= length items
    /\ (forall u, In u (fetches more) -> In u (map fst items))
    /\ (forall u, u ∈ downloaded_files self' ->
                  u ∈ downloaded_files self \/ In u (map fst items))
    /\ (forall u, u ∈ failed_downloads self' ->
                  u ∈ failed_downloads self \/ In u (map fst items)).
Proof.
  revert self. induction items as [|[file_url local_path] rest IH]; intros self H.
  - injection H as <- <-. exists []. rewrite app_nil_r.
    split_and!; [reflexivity | cbn; lia | intros ? [] | auto | auto].
  - cbn [worker] in H.
    assert (exists s1 r1, download_file file_url local_path self = (s1, r1)
              /\ (worker rest s1 = (self', r) \/ (s1 = self' /\ r1 = None)))
      as (s1 & r1 & Hd & Hnext).
    { apply bind_inv in H as [(b & s1 & Hd & H) | [Hd ->]]; eauto 7. }
    pose proof (download_file_trace _ _ _ _ _ Hd) as (more1 & Htr1 & Hshape).
    pose proof (download_file_effect _ _ _ _ _ Hd) as (_ & _ & _ & _ & more0 & _ & Hcase).
    assert (length (fetches more1) <= 1
            /\ (forall u, In u (fetches more1) -> u = file_url)) as [Hlen1 Hin1].
    { destruct Hshape as [-> | [-> | ->]]; cbn; split; try lia;
        intros u Hu; destruct Hu as [Hu|Hu]; try contradiction; auto. }
    assert ((forall u, u ∈ downloaded_files s1 -> u ∈ downloaded_files self \/ u = file_url)
            /\ (forall u, u ∈ failed_downloads s1 -> u ∈ failed_downloads self \/ u = file_url))
      as [HD1 HF1].
    { destruct Hcase as [(_ & -> & ->) | [(_ & _ & -> & ->) | (_ & -> & -> & _)]];
        split; intros u Hu; set_solver. }
    destruct Hnext as [Hw | [<- _]].
    + apply IH in Hw as (more2 & Htr2 & Hlen2 & Hin2 & HD2 & HF2).
      exists (more1 ++ more2). rewrite Htr2, Htr1, app_assoc, fetches_app, List.length_app.
      cbn [length map fst].
      split_and!; [reflexivity | lia | | |].
      * intros u Hu. apply in_app_iff in Hu as [Hu|Hu]; [left; symmetry; auto | right; auto].
      * intros u Hu. destruct (HD2 u Hu) as [Hu1|Hu1]; [|right; right; exact Hu1].
        destruct (HD1 u Hu1) as [?| ->]; [left; assumption | right; left; reflexivity].
      * intros u Hu. destruct (HF2 u Hu) as [Hu1|Hu1]; [|right; right; exact Hu1].
        destruct (HF1 u Hu1) as [?| ->]; [left; assumption | right; left; reflexivity].
    + exists more1. cbn [length map fst].
      split_and!; [exact Htr1 | lia | | |].
      * intros u Hu. left. symmetry. auto.
      * intros u Hu. destruct (HD1 u Hu) as [?| ->]; [left; assumption | right; left; reflexivity].
      * intros u Hu. destruct (HF1 u Hu) as [?| ->]; [left; assumption | right; left; reflexivity].
Qed.

(** X5: a worker fetches only URLs of its items, at most one GET for
    each item, and records in [downloaded_files] and [failed_downloads] only
    URLs of its items. *)
Theorem worker_fetches_only_its_items {W : Type} {os : Collaborators W}
    (items : list (string * string)) (self self' : Downloader W) (r : option unit) :
  worker items self = (self', r) ->
  exists more,
    trace self' = trace self ++ more
    /\ length (fetches more) <= length items
    /\ (forall u, In u (fetches more) -> In u (map fst items))
    /\ (forall u, u ∈ downloaded_files self' ->
                  u ∈ downloaded_files self \/ In u (map fst items))
    /\ (forall u, u ∈ failed_downloads self' ->
                  u ∈ failed_downloads self \/ In u (map fst items)).
Proof.
  intros H. destruct (worker_bounds _ _ _ _ H) as (more & Htr & Hlen & Hin & HD & HF).
  exists more. split_and!; assumption.
Qed.

Lemma worker_fetches_witness :
  let self := idle "http://h/pub" [] ∅ in
  let items := [("http://h/pub/f.txt?v=1", "./out/pub/f.txt");
                ("http://h/pub/f.txt", "./out/pub/f.txt")] in
  let result := worker (os := mock site_two_names) items self in
  result = (fst result, Some tt)
  /\ exists more,
    trace (fst result) = trace self ++ more
    /\ length (fetches more) <= length items
    /\ (forall u, In u (fetches more) -> In u (map fst items))
    /\ (forall u, u ∈ downloaded_files (fst result) ->
                  u ∈ downloaded_files self \/ In u (map fst items))
    /\ (forall u, u ∈ failed_downloads (fst result) ->
                  u ∈ failed_downloads self \/ In u (map fst items)).
Proof.
  intros self items result.
  assert (result = (fst result, Some tt)) as H by (vm_compute; reflexivity).
  split; [exact H|].
  exact (worker_fetches_only_its_items (os := mock site_two_names) items self
           (fst result) (Some tt) H).
Defined.

(** ** The download worker on the mock disk *)

Section MockDownload.
Variable site : list (string * Response).

Implicit Types self : Downloader Disk.

Lemma string_app_assoc (a b c : string) : (a +:+ b) +:+ c = a +:+ (b +:+ c).
Proof.
  induction a as [|x a IH]; [reflexivity|].
  rewrite !app_cons, IH. reflexivity.
Qed.

Lemma nonempty_false (s : string) : Str.nonempty s = false -> s = "".
Proof. destruct s; [reflexivity | discriminate]. Qed.

(** The chunks are appended to the file in order. *)
Lemma mock_write_chunks (p : string) (chunks : list string) self (c : string) :
  world self !! p = Some c ->
  write_chunks (os := mock site) p chunks self
  = (set_world (<[p := c +:+ body_of chunks]> (world self)) self, Some tt).
Proof.
  revert self c. induction chunks as [|chunk rest IH]; intros self c Hc.
  - cbn [write_chunks body_of]. unfold ret. rewrite app_nil.
    rewrite (insert_id _ _ _ Hc), set_world_same. reflexivity.
  - cbn [write_chunks body_of]. unfold bind.
    destruct (Str.nonempty chunk) eqn:Hne.
    + unfold call. cbn [file_write mock]. rewrite Hc.
      rewrite (IH _ (c +:+ chunk)) by (cbn; apply lookup_insert_eq).
      cbn. unfold Disk in *. rewrite insert_insert_eq, string_app_assoc. reflexivity.
    + unfold ret. apply nonempty_false in Hne as ->.
      change ("" +:+ body_of rest) with (body_of rest). apply IH, Hc.
Qed.

Lemma mock_exists (p : string) (disk : Disk) :
  os_path_exists (Collaborators := mock site) p disk = bool_decide (is_Some (disk !! p)).
Proof. reflexivity. Qed.

Lemma mock_exists_some (p : string) (disk : Disk) (c : string) :
  disk !! p = Some c -> os_path_exists (Collaborators := mock site) p disk = true.
Proof. intros H. rewrite mock_exists, H. apply bool_decide_eq_true_2. eauto. Qed.

Lemma mock_exists_none (p : string) (disk : Disk) :
  disk !! p = None -> os_path_exists (Collaborators := mock site) p disk = false.
Proof.
  intros H. rewrite mock_exists, H. apply bool_decide_eq_false_2.
  intros [c Hc]. discriminate Hc.
Qed.

(** Lines 94 to 97 on the mock: the file holds the body. *)
Lemma mock_save (p : string) (response : Response) self :
  save (os := mock site) p response self
  = (set_world (<[p := body_of (iter_content response)]> (world self)) self,
     if stream_error response then None else Some tt).
Proof.
  unfold save, bind, call. cbn [open_wb mock].
  rewrite (mock_write_chunks p _ _ "") by (cbn; apply lookup_insert_eq).
  cbn. unfold Disk in *. rewrite insert_insert_eq.
  change ("" +:+ ?x) with x.
  destruct (stream_error response); reflexivity.
Qed.

Lemma mock_exists_with_content (p : string) self (c : string) :
  world self !! p = Some c ->
  exists_with_content (os := mock site) p self = (self, Some (Nat.ltb 0 (String.length c))).
Proof.
  intros Hc. unfold exists_with_content, bind, gets, call, ret.
  rewrite (mock_exists_some _ _ _ Hc). cbn [os_path_getsize mock].
  rewrite Hc. cbn. rewrite set_world_same. reflexivity.
Qed.

(** Lines 84 to 105 on the mock, for a target that is not on the disk. *)
Lemma mock_fetch (u p : string) self self' r :
  world self !! p = None ->
  fetch (os := mock site) u p self = (self', r) ->
  (forall q, q <> p -> world self' !! q = world self !! q)
  /\ ((exists response,
         r = Some true /\ assoc site u = Some response
         /\ world self' !! p = Some (body_of (iter_content response))
         /\ body_of (iter_content response) <> "")
      \/ (r = Some false /\ world self' = world self)
      \/ (r = None /\ world self' = world self)
      \/ (r = None /\ exists c, world self' = <[p := c]> (world self))).
Proof.
  intros Hp. unfold fetch. intros H.
  apply bind_inv in H as [(response & s1 & Hget & H) | [Hget ->]];
    rewrite get_effect in Hget; cbn in Hget; injection Hget as <- Hresp.
  2:{ cbn. split; [reflexivity | right; right; left; auto]. }
  apply bind_inv in H as [([] & s2 & Hst & H) | [Hst ->]];
    apply stateless_raise_for_status in Hst as ->.
  2:{ cbn. split; [reflexivity | right; right; left; auto]. }
  apply bind_inv in H as [(listing & s3 & Hl & H) | [Hl ->]];
    apply stateless_is_listing in Hl as ->.
  2:{ cbn. split; [reflexivity | right; right; left; auto]. }
  destruct listing.
  { injection H as <- <-. cbn. split; [reflexivity | right; left; auto]. }
  unfold bind in H. rewrite mock_save in H. cbn [world log set_world] in H.
  remember (body_of (iter_content response)) as body eqn:Ebody.
  assert (forall q, q <> p -> (<[p := body]> (world self) : Disk) !! q = world self !! q)
    as Hother by (intros q Hq; apply lookup_insert_ne; congruence).
  destruct (stream_error response).
  { injection H as <- <-. cbn. split; [exact Hother | right; right; right; eauto]. }
  rewrite (mock_exists_with_content p _ body) in H by (cbn; apply lookup_insert_eq).
  destruct (Nat.ltb 0 (String.length body)) eqn:Hsize.
  - injection H as <- <-. cbn. split; [exact Hother|]. left.
    exists response. rewrite <- Ebody.
    split_and!; [reflexivity | exact Hresp | apply lookup_insert_eq |].
    intros Hb. rewrite Hb in Hsize. discriminate Hsize.
  - injection H as <- <-. cbn. split; [exact Hother | right; right; right; eauto].
Qed.

End MockDownload.

(** X6: on the mock disk [download_file] never raises and touches no
    path but its target; a file that is already there is left as it is and
    counts as downloaded; and when the target is not there, either the
    download succeeds and the file holds the whole body, which is not empty,
    or nothing is left at the target and the call returns [False]. *)
Theorem mock_download_leaves_no_partial_file (site : list (string * Response))
    (file_url local_path : string) (self self' : Downloader Disk) (r : option bool) :
  file_url ∉ downloaded_files self ->
  download_file (os := mock site) file_url local_path self = (self', r) ->
  r <> None
  /\ (forall q, q <> local_path -> world self' !! q = world self !! q)
  /\ (is_Some (world self !! local_path) -> world self' = world self /\ r = Some true)
  /\ (world self !! local_path = None ->
      (exists response,
         r = Some true /\ assoc site file_url = Some response
         /\ world self' !! local_path = Some (body_of (iter_content response))
         /\ body_of (iter_content response) <> "")
      \/ (r = Some false /\ world self' !! local_path = None)).
Proof.
  intros Hnew. unfold download_file, try_except.
  destruct (attempt (os := mock site) file_url local_path self) as [s1 a] eqn:Ha.
  unfold attempt, bind, gets, call, modify, ret in Ha.
  rewrite bool_decide_eq_false_2 in Ha by exact Hnew.
  cbn [os_makedirs mock] in Ha. cbn [world set_world] in Ha.
  destruct (world self !! local_path) as [c|] eqn:Hp.
  - rewrite (mock_exists_some _ _ _ _ Hp) in Ha. injection Ha as <- <-.
    intros [= <- <-]. cbn.
    split_and!; [discriminate | reflexivity | auto | discriminate].
  - rewrite (mock_exists_none _ _ _ Hp) in Ha.
    apply mock_fetch in Ha as [Hother Hcases]; [|exact Hp]. cbn [world] in Hother, Hcases.
    destruct Hcases as [(response & -> & Hresp & Hbody & Hne)
                       | [(-> & Hw) | [(-> & Hw) | (-> & c & Hw)]]].
    + intros [= <- <-].
      split_and!; [discriminate | exact Hother | intros [? ?]; discriminate | eauto 8].
    + intros [= <- <-].
      split_and!; [discriminate | exact Hother | intros [? ?]; discriminate |].
      intros _. right. split; [reflexivity | rewrite Hw; exact Hp].
    + rewrite on_failure_steps. rewrite mock_exists_none by (rewrite Hw; exact Hp).
      intros [= <- <-]. cbn [world failed_add].
      split_and!; [discriminate | exact Hother | intros [? ?]; discriminate |].
      intros _. right. split; [reflexivity | rewrite Hw; exact Hp].
    + rewrite on_failure_steps.
      rewrite (mock_exists_some _ _ _ c) by (rewrite Hw; apply lookup_insert_eq).
      cbn [os_remove mock]. rewrite Hw. unfold Disk in *.
      rewrite lookup_insert_eq. cbn [fst snd].
      intros [= <- <-]. cbn [world set_world failed_add].
      split_and!; [discriminate | | intros [? ?]; discriminate |].
      * intros q Hq. rewrite lookup_delete_ne, lookup_insert_ne by congruence. reflexivity.
      * intros _. right. split; [reflexivity | apply lookup_delete_eq].
Qed.

(** ** More on the crawler *)

Section CrawlMore.
Context {W : Type} {parser : HtmlParser} {os : Collaborators W}.

Implicit Types self : Downloader W.

(** A listing that cannot be fetched or read is the empty listing. *)
Lemma failed_listing (url : string) self (w : W) (answer : option Response) :
  session_get url (world self) = (w, answer) ->
  match answer with
  | None => True
  | Some response =>
      400 <= status_code response < 600 \/ stream_error response = true
  end ->
  get_directory_contents url self
  = (log (Listed url no_items) (set_world w (log (Get url) self)), no_items).
Proof.
  intros Hget Hbad.
  assert (scan_directory url self = (set_world w (log (Get url) self), None)) as Hscan.
  { unfold scan_directory, bind. rewrite get_effect, Hget. cbn [fst snd].
    destruct answer as [response|]; [|reflexivity].
    unfold raise_for_status, response_text, raise, ret.
    destruct (Nat.leb 400 (status_code response) && Nat.ltb (status_code response) 600)
      eqn:Hstatus; [reflexivity|].
    destruct Hbad as [Hbad | ->]; [|reflexivity].
    apply andb_false_iff in Hstatus as [Hs|Hs];
      [apply Nat.leb_gt in Hs | apply Nat.ltb_ge in Hs]; lia. }
  unfold get_directory_contents. rewrite Hscan. reflexivity.
Qed.

Lemma work_items_urls (output_dir : string) (visits : list (string * Items)) :
  Forall (fun visit => well_formed (snd visit)) visits ->
  map fst (flat_map (work_items output_dir) (map snd visits)) = discovered_files visits.
Proof.
  unfold discovered_files. induction 1 as [|visit visits Hwf _ IH]; [reflexivity|].
  cbn [map flat_map]. rewrite map_app, IH. f_equal.
  apply queued_all, Hwf.
Qed.

Lemma worker_keeps_scanned (items : list (string * string)) self self' r :
  worker items self = (self', r) ->
  scanned_dirs self' = scanned_dirs self
  /\ base_url self' = base_url self
  /\ output_dir self' = output_dir self.
Proof.
  revert self. induction items as [|[file_url local_path] rest IH]; intros self H.
  - injection H as <- <-. auto.
  - cbn [worker] in H.
    apply bind_inv in H as [(b & s1 & Hd & H) | [Hd ->]];
      apply download_file_effect in Hd as (Hb & Ho & Hs & _); [|auto].
    apply IH in H as (-> & -> & ->). auto.
Qed.

End CrawlMore.

(** X1: a directory whose listing cannot be had (the GET raises,
    the status is 4xx or 5xx, or the body cannot be read) is marked as
    scanned with one GET, puts nothing on the queue, and the crawl returns. *)
Theorem unreadable_directory_is_skipped {W : Type} {parser : HtmlParser}
    {os : Collaborators W} (fuel : nat) (url : string) (self : Downloader W)
    (w : W) (answer : option Response) :
  url ∉ scanned_dirs self ->
  session_get url (world self) = (w, answer) ->
  match answer with
  | None => True
  | Some response =>
      400 <= status_code response < 600 \/ stream_error response = true
  end ->
  exists self',
    crawl_directory (S fuel) url self = Some (self', Some tt)
    /\ scanned_dirs self' = {[url]} ∪ scanned_dirs self
    /\ file_queue self' = file_queue self
    /\ trace self' = trace self ++ [Scanned url; Get url; Listed url no_items]
    /\ world self' = w.
Proof.
  intros Hnew Hget Hbad.
  eexists. split.
  - cbn [crawl_directory]. rewrite bool_decide_eq_false_2 by exact Hnew.
    rewrite (failed_listing url (scanned_add url self) w answer Hget Hbad).
    reflexivity.
  - cbn. rewrite <- !app_assoc. split_and!; reflexivity.
Qed.

Lemma unreadable_directory_witness :
  let self := idle "http://h/pub" [] ∅ in
  ("http://h/pub/f.txt?v=1" ∉ scanned_dirs self)
  /\ exists self',
    crawl_directory (parser := mock_parser) (os := mock site_two_names) 1
      "http://h/pub/f.txt?v=1" self = Some (self', Some tt)
    /\ scanned_dirs self' = {["http://h/pub/f.txt?v=1"]} ∪ scanned_dirs self
    /\ file_queue self' = file_queue self
    /\ trace self' = trace self ++ [Scanned "http://h/pub/f.txt?v=1";
                                    Get "http://h/pub/f.txt?v=1";
                                    Listed "http://h/pub/f.txt?v=1" no_items]
    /\ world self' = ∅.
Proof.
  intros self.
  assert ("http://h/pub/f.txt?v=1" ∉ scanned_dirs self) as Hnew by set_solver.
  split; [exact Hnew|].
  apply (unreadable_directory_is_skipped (parser := mock_parser)
           (os := mock site_two_names) 0 "http://h/pub/f.txt?v=1" self ∅
           (Some not_found) Hnew eq_refl).
  left. cbn. lia.
Defined.

(** X7: after a run that starts with an empty queue and whose worker
    lives to the end, the queue is empty again; every file listed by a
    directory the crawl visited is in [downloaded_files] or in
    [failed_downloads], or was taken for a listing in disguise; and the two
    sets hold nothing new but such files, the only URLs the worker
    fetched. *)
Theorem run_accounts_for_discovered_files {W : Type} {parser : HtmlParser}
    {os : Collaborators W} (fuel : nat) (self self' : Downloader W) :
  file_queue self = [] ->
  start_download fuel self = Some (self', Some tt) ->
  exists visits more,
    scanned_dirs self' = list_to_set (map fst visits) ∪ scanned_dirs self
    /\ trace self' = trace self ++ flat_map (block (output_dir self)) visits ++ more
    /\ file_queue self' = []
    /\ (forall f, In f (discovered_files visits) ->
          f ∈ downloaded_files self' \/ f ∈ failed_downloads self'
          \/ In (Skipping f) more)
    /\ (forall u, u ∈ downloaded_files self' ->
          u ∈ downloaded_files self \/ In u (discovered_files visits))
    /\ (forall u, u ∈ failed_downloads self' ->
          u ∈ failed_downloads self \/ In u (discovered_files visits))
    /\ (forall u, In u (fetches more) -> In u (discovered_files visits)).
Proof.
  intros Hempty. unfold start_download.
  destruct (crawl_directory fuel (base_url self) self) as [[self1 [[]|]]|] eqn:E;
    [|discriminate..].
  intros [= H].
  apply crawl_directory_crawled in E as (visits & C & _ & _ & Wf & _).
  destruct C as (_ & _ & D1 & F1 & S1 & Q1 & T1 & _ & _).
  rewrite Hempty in Q1. cbn [app] in Q1.
  unfold drain, bind, gets, modify in H. rewrite Q1 in H.
  pose proof (worker_keeps_scanned _ _ _ _ H) as (S2 & _ & _).
  pose proof (worker_bounds _ _ _ _ H) as (more & T2 & _ & Hget & HD & HF).
  pose proof (worker_effect _ _ _ _ H) as (_ & _ & Q2 & more' & T2' & Hall & _).
  assert (more' = more) as -> by (rewrite T2 in T2'; exact (app_inv_head _ _ _ (eq_sym T2'))).
  rewrite (work_items_urls _ _ Wf) in Hget, HD, HF.
  exists visits, more. cbn in S2, T2, Q2, HD, HF.
  split_and!.
  - rewrite S2. exact S1.
  - rewrite T2, T1, <- app_assoc. reflexivity.
  - exact Q2.
  - intros f Hf. rewrite <- (work_items_urls (output_dir self) _ Wf) in Hf.
    apply in_map_iff in Hf as (item & <- & Hitem). exact (Hall eq_refl item Hitem).
  - intros u Hu. rewrite <- D1. exact (HD u Hu).
  - intros u Hu. rewrite <- F1. exact (HF u Hu).
  - exact Hget.
Qed.

Lemma run_accounts_witness :
  let self := idle "http://h/r" [] ∅ in
  exists self',
    start_download (parser := mock_parser) (os := mock site_cycle) 4 self
      = Some (self', Some tt)
    /\ exists visits more,
      scanned_dirs self' = list_to_set (map fst visits) ∪ scanned_dirs self
      /\ trace self' = trace self ++ flat_map (block (output_dir self)) visits ++ more
      /\ file_queue self' = []
      /\ (forall f, In f (discovered_files visits) ->
            f ∈ downloaded_files self' \/ f ∈ failed_downloads self'
            \/ In (Skipping f) more)
      /\ (forall u, u ∈ downloaded_files self' ->
            u ∈ downloaded_files self \/ In u (discovered_files visits))
      /\ (forall u, u ∈ failed_downloads self' ->
            u ∈ failed_downloads self \/ In u (discovered_files visits))
      /\ (forall u, In u (fetches more) -> In u (discovered_files visits)).
Proof.
  intros self.
  destruct (start_download (parser := mock_parser) (os := mock site_cycle) 4 self)
    as [[self' [[]|]]|] eqn:E.
  - exists self'. split; [reflexivity|].
    exact (run_accounts_for_discovered_files (parser := mock_parser)
             (os := mock site_cycle) 4 self self' eq_refl E).
  - vm_compute in E. discriminate E.
  - vm_compute in E. discriminate E.
Defined.

(** X8: the constructor takes the slashes from the end of the root URL
    and nothing else: the base URL does not end in a slash and the root URL
    is the base URL followed by slashes only; the three sets and the queue
    are empty. *)
Theorem init_strips_only_trailing_slashes {W : Type} {os : Collaborators W}
    (root_url output_dir : string) (w : W) (self : Downloader W) :
  init root_url output_dir w = Some self ->
  Str.endswith (base_url self) "/" = false
  /\ (exists n, root_url = base_url self +:+ slashes n)
  /\ downloaded_files self = ∅ /\ failed_downloads self = ∅
  /\ scanned_dirs self = ∅ /\ file_queue self = [].
Proof.
  unfold init. destruct (os_makedirs output_dir w) as [w' [[]|]]; [|discriminate].
  intros [= <-]. cbn.
  destruct (rstrip_spec root_url) as [H1 H2].
  split_and!; [exact H1 | exact H2 | reflexivity..].
Qed.

Lemma init_witness :
  exists self,
    init (os := mock site_cycle) "http://h/r//" "./out" ∅ = Some self
    /\ Str.endswith (base_url self) "/" = false
    /\ (exists n, "http://h/r//" = base_url self +:+ slashes n)
    /\ downloaded_files self = ∅ /\ failed_downloads self = ∅
    /\ scanned_dirs self = ∅ /\ file_queue self = [].
Proof.
  eexists. split; [reflexivity|].
  apply (init_strips_only_trailing_slashes (os := mock site_cycle)
           "http://h/r//" "./out" ∅). reflexivity.
Defined.

(** ** More on the parser and the path mapper *)

Section ParserMore.

Lemma lstrip_ws_blank (s : string) : blank s = true -> Str.lstrip_ws s = "".
Proof.
  unfold blank. induction s as [|a s IH]; [reflexivity|].
  cbn [Str.forallb Str.lstrip_ws]. intros H. apply andb_true_iff in H as [-> H].
  apply IH, H.
Qed.

Lemma strip_blank (s : string) : blank s = true -> Str.strip s = "".
Proof. intros H. unfold Str.strip. rewrite (lstrip_ws_blank _ H). reflexivity. Qed.

(** A retained link has a target that is not blank. *)
Lemma retained_has_target (link : Tag) :
  retained link = true ->
  exists h, attr_href link = Some h /\ blank h = false.
Proof.
  unfold retained. intros H. apply negb_true_iff, skip_link_false in H as (Hne & _).
  unfold href_of, get_href in Hne.
  destruct (attr_href link) as [h|]; [|contradiction Hne; reflexivity].
  exists h. split; [reflexivity|].
  destruct (blank h) eqn:Hb; [|reflexivity].
  contradiction Hne. apply strip_blank, Hb.
Qed.

Lemma filter_split_length {A} (f g : A -> bool) (l : list A) :
  length (List.filter (fun x => f x && g x) l)
  + length (List.filter (fun x => f x && negb (g x)) l)
  = length (List.filter f l).
Proof.
  induction l as [|x l IH]; [reflexivity|].
  cbn [List.filter]. destruct (f x), (g x); cbn [andb negb length]; lia.
Qed.

End ParserMore.

(** X9: a link without an [href] attribute, or whose [href] is
    blank, gives nothing: every URL the parser returns comes from a link
    that has an [href] with something else than whitespace in it. *)
Theorem returned_links_have_a_target {parser : HtmlParser}
    (html_content base_url url : string) (items : Items) :
  parse_directory_listing html_content base_url = Some items ->
  In url (files items ++ directories items) ->
  exists link h,
    In link (find_all_a html_content)
    /\ attr_href link = Some h
    /\ blank h = false
    /\ resolved base_url link = Some url.
Proof.
  intros H Hin.
  destruct (returned_link _ _ _ _ H Hin) as (link & Hl & Hr & Hkept).
  destruct (retained_has_target link Hkept) as (h & Hh & Hb).
  exists link, h. split_and!; [exact Hl | exact Hh | exact Hb | exact Hr].
Qed.

Lemma returned_links_target_witness :
  let html := "<a href=' '>blank</a><a href='f.txt'>f.txt</a>" in
  let items := mkItems ["http://h/pub/f.txt"] [] in
  parse_directory_listing (parser := mock_parser) html "http://h/pub" = Some items
  /\ In "http://h/pub/f.txt" (files items ++ directories items)
  /\ exists link h,
    In link (find_all_a (HtmlParser := mock_parser) html)
    /\ attr_href link = Some h
    /\ blank h = false
    /\ resolved "http://h/pub" link = Some "http://h/pub/f.txt".
Proof.
  intros html items.
  assert (parse_directory_listing (parser := mock_parser) html "http://h/pub" = Some items)
    as H by reflexivity.
  assert (In "http://h/pub/f.txt" (files items ++ directories items)) as Hin
    by (left; reflexivity).
  split; [exact H|]. split; [exact Hin|].
  exact (returned_links_have_a_target (parser := mock_parser) _ _ _ _ H Hin).
Defined.

(** X10: when the parser returns, every retained link is returned once,
    as a file or as a directory: the two lists together are as long as the
    list of retained links, and so no longer than the list of links of the
    page.  When it raises, [urljoin] has rejected the target of a retained
    link, and [get_directory_contents] answers a page with this content
    with the empty listing: every link of the page is lost. *)
Theorem every_retained_link_is_returned_once {parser : HtmlParser}
    (html_content base_url : string) :
  match parse_directory_listing html_content base_url with
  | Some items =>
      length (files items) + length (directories items)
      = length (List.filter retained (find_all_a html_content))
      /\ length (List.filter retained (find_all_a html_content))
         <= length (find_all_a html_content)
  | None =>
      (exists link,
         In link (find_all_a html_content)
         /\ retained link = true
         /\ resolved base_url link = None)
      /\ forall (W : Type) (os : Collaborators W) (self : Downloader W)
           (w : W) (response : Response),
           session_get base_url (world self) = (w, Some response) ->
           text response = html_content ->
           get_directory_contents base_url self
           = (log (Listed base_url no_items) (set_world w (log (Get base_url) self)),
              no_items)
  end.
Proof.
  destruct (parse_directory_listing html_content base_url) as [items|] eqn:E.
  - unfold parse_directory_listing in E. apply parse_links in E as [Hf Hd].
    cbn [files directories no_items map app] in Hf, Hd.
    apply (f_equal (@length _)) in Hf, Hd. rewrite !length_map in Hf, Hd.
    rewrite Hf, Hd. split.
    + rewrite Nat.add_comm. apply filter_split_length.
    + apply filter_length_le.
  - split; [exact (parse_links_raise _ _ _ E)|].
    intros W os self w response Hget Htext.
    assert (scan_directory base_url self = (set_world w (log (Get base_url) self), None))
      as Hscan.
    { unfold scan_directory, bind. rewrite get_effect, Hget. cbn [fst snd].
      unfold raise_for_status, response_text, raise, ret.
      destruct (_ && _); [reflexivity|].
      destruct (stream_error response); [reflexivity|].
      rewrite Htext, E. reflexivity. }
    unfold get_directory_contents. rewrite Hscan. reflexivity.
Qed.

Lemma every_retained_link_witness :
  let html := "<a href='f.txt'>f.txt</a><a href='//[x/'>x</a>" in
  let self := idle "http://h/pub" [] ∅ in
  parse_directory_listing (parser := mock_parser) html "http://h/pub" = None
  /\ get_directory_contents (parser := mock_parser)
       (os := mock [("http://h/pub", page html)]) "http://h/pub" self
     = (log (Listed "http://h/pub" no_items)
          (set_world ∅ (log (Get "http://h/pub") self)), no_items).
Proof.
  intros html self.
  pose proof (every_retained_link_is_returned_once (parser := mock_parser)
                html "http://h/pub") as H.
  destruct (parse_directory_listing (parser := mock_parser) html "http://h/pub")
    as [items|] eqn:E; [vm_compute in E; discriminate E|].
  split; [reflexivity|].
  destruct H as [_ H].
  exact (H Disk (mock [("http://h/pub", page html)]) self ∅ (page html) eq_refl eq_refl).
Defined.

Section Confinement.

Lemma split_not_nil (s : string) : Str.split "/" s <> [].
Proof.
  destruct s as [|a s]; [discriminate|].
  cbn [Str.split]. destruct (Ascii.eqb a "/"); [discriminate|].
  destruct (Str.split "/" s); discriminate.
Qed.

(** The segments of a path, read back. *)
Lemma split_shape (s : string) :
  forall f rest,
    Str.split "/" s = f :: rest ->
    match rest with
    | [] => s = f
    | g :: more => exists s', s = f +:+ String "/" s' /\ Str.split "/" s' = g :: more
    end.
Proof.
  induction s as [|a s IH]; intros f rest H.
  - injection H as <- <-. reflexivity.
  - cbn [Str.split] in H. destruct (Ascii.eqb_spec a "/") as [->|Hne].
    + injection H as <- <-.
      destruct (Str.split "/" s) as [|g more] eqn:E; [destruct (split_not_nil _ E)|].
      exists s. split; [reflexivity | exact E].
    + destruct (Str.split "/" s) as [|w ws] eqn:E; [destruct (split_not_nil _ E)|].
      injection H as <- <-. specialize (IH w ws eq_refl).
      destruct ws as [|g more].
      * congruence.
      * destruct IH as (s' & -> & Hs'). exists s'. split; [reflexivity | exact Hs'].
Qed.

Lemma contains_suffix (p x y : string) :
  Str.contains p (x +:+ y) = false -> Str.contains p y = false.
Proof.
  induction x as [|a x IH]; [trivial|].
  rewrite app_cons. intros H. apply contains_cons in H as [_ H]. apply IH, H.
Qed.

Lemma stays_below_cons (seg : string) (rest : list string) (depth : nat) :
  stays_below (seg :: rest) depth =
  if String.eqb seg ".." then
    match depth with
    | O => false
    | S d => stays_below rest d
    end
  else if String.eqb seg "." || String.eqb seg "" then stays_below rest depth
  else stays_below rest (S depth).
Proof. reflexivity. Qed.

(** Below the first level a path without [./] cannot climb out: its only
    [..] is its last segment. *)
Lemma stays_below_deep (segments : list string) :
  forall s depth,
    Str.split "/" s = segments ->
    Str.contains "./" s = false ->
    1 <= depth ->
    stays_below segments depth = true.
Proof.
  induction segments as [|f rest IH]; intros s depth Hsplit Hs Hd; [reflexivity|].
  pose proof (split_shape s f rest Hsplit) as Hshape.
  destruct rest as [|g more].
  - cbn [stays_below].
    destruct (String.eqb f ".."); [destruct depth; [lia | reflexivity]|].
    destruct (_ || _); reflexivity.
  - destruct Hshape as (s' & -> & Hs').
    pose proof (contains_suffix _ _ _ Hs) as Hs1.
    apply contains_cons in Hs1 as [_ Hs1].
    rewrite stays_below_cons.
    destruct (String.eqb_spec f "..") as [->|_]; [discriminate Hs|].
    destruct (_ || _); apply (IH s'); auto; lia.
Qed.

Lemma stays_below_top (s : string) :
  Str.contains "./" s = false ->
  Str.startswith s "/" = false ->
  s <> ".." ->
  stays_below (Str.split "/" s) 0 = true.
Proof.
  intros Hs Hlead Hne.
  destruct (Str.split "/" s) as [|f rest] eqn:Hsplit; [reflexivity|].
  pose proof (split_shape s f rest Hsplit) as Hshape.
  destruct rest as [|g more].
  - subst f. cbn [stays_below].
    destruct (String.eqb_spec s "..") as [->|_]; [contradiction Hne; reflexivity|].
    destruct (_ || _); reflexivity.
  - destruct Hshape as (s' & -> & Hs').
    pose proof (contains_suffix _ _ _ Hs) as Hs1.
    apply contains_cons in Hs1 as [_ Hs1].
    rewrite stays_below_cons.
    destruct (String.eqb_spec f "..") as [->|_]; [discriminate Hs|].
    destruct (String.eqb_spec f ".") as [->|_]; [discriminate Hs|].
    destruct (String.eqb_spec f "") as [->|_]; [discriminate Hlead|].
    cbn [orb]. apply (stays_below_deep _ s'); auto.
Qed.

Lemma strip_prefix_app (p s : string) : strip_prefix p (p +:+ s) = Some s.
Proof.
  induction p as [|a p IH]; [reflexivity|].
  rewrite app_cons. cbn [strip_prefix]. rewrite Ascii.eqb_refl. exact IH.
Qed.

End Confinement.

(** X11: for a URL whose path has no empty segment, the local path
    is inside the output root, unless the relative path is [..] itself. *)
Theorem clean_path_stays_inside_root (output_dir url : string) (parsed_url : Url.ParseResult) :
  output_dir <> "" ->
  Url.urlparse url = Some parsed_url ->
  no_empty_segment (Url.path parsed_url) = true ->
  relative_path (Url.path parsed_url) <> ".." ->
  exists local_path,
    get_local_path output_dir url = Some local_path
    /\ inside_root output_dir local_path = true.
Proof.
  intros Hout Hparsed Hclean Hne. unfold get_local_path. rewrite Hparsed.
  eexists. split; [reflexivity|].
  set (rel := relative_path (Url.path parsed_url)) in *.
  unfold no_empty_segment in Hclean. apply negb_true_iff in Hclean.
  destruct (relative_path_facts _ Hclean) as (R1 & R2 & _). fold rel in R1, R2.
  pose proof (stays_below_top rel R1 R2 Hne) as Hstay.
  unfold OsPath.join. rewrite R2.
  assert (Str.nonempty output_dir = true) as -> by (destruct output_dir; [contradiction Hout|]; reflexivity).
  cbn [negb orb]. unfold inside_root.
  destruct (Str.endswith output_dir "/") eqn:Hend.
  - rewrite strip_prefix_app. cbn [orb andb]. exact Hstay.
  - rewrite strip_prefix_app.
    change ("/" +:+ rel) with (String "/" rel).
    cbn [Str.nonempty negb orb]. rewrite head_slash, Ascii.eqb_refl. cbn [andb].
    cbn [Str.split]. rewrite Ascii.eqb_refl, stays_below_cons. exact Hstay.
Qed.

Lemma clean_path_witness :
  "./downloaded_files" <> ""
  /\ exists local_path,
    get_local_path "./downloaded_files" "http://host/pub/../a/./b/file.txt"
      = Some local_path
    /\ inside_root "./downloaded_files" local_path = true.
Proof.
  split; [discriminate|].
  apply (clean_path_stays_inside_root "./downloaded_files"
           "http://host/pub/../a/./b/file.txt"
           (Url.mkParseResult "http" "host" "/pub/../a/./b/file.txt" "" "" "")).
  - discriminate.
  - reflexivity.
  - reflexivity.
  - vm_compute. discriminate.
Defined.

Lemma mock_download_witness :
  let self := idle "http://h/pub" [] ∅ in
  let result := download_file (os := mock site_two_names)
                  "http://h/pub/f.txt" "./out/pub/f.txt" self in
  ("http://h/pub/f.txt" ∉ downloaded_files self)
  /\ result = (fst result, Some true)
  /\ Some true <> None
  /\ (forall q, q <> "./out/pub/f.txt" -> world (fst result) !! q = world self !! q)
  /\ (is_Some (world self !! "./out/pub/f.txt") ->
      world (fst result) = world self /\ Some true = Some true)
  /\ (world self !! "./out/pub/f.txt" = None ->
      (exists response,
         Some true = Some true /\ assoc site_two_names "http://h/pub/f.txt" = Some response
         /\ world (fst result) !! "./out/pub/f.txt" = Some (body_of (iter_content response))
         /\ body_of (iter_content response) <> "")
      \/ (Some true = Some false /\ world (fst result) !! "./out/pub/f.txt" = None)).
Proof.
  intros self result.
  assert ("http://h/pub/f.txt" ∉ downloaded_files self) as Hnew by set_solver.
  assert (result = (fst result, Some true)) as H by (vm_compute; reflexivity).
  split; [exact Hnew|]. split; [exact H|].
  exact (mock_download_leaves_no_partial_file site_two_names
           "http://h/pub/f.txt" "./out/pub/f.txt" self (fst result) (Some true) Hnew H).
Defined.

(** X12: once [download_file] has returned [True] for a URL, a later
    call for the same URL, whatever the local path, returns [True] at once:
    no directory is made, nothing is fetched, nothing changes. *)
Theorem downloaded_url_is_not_attempted_again {W : Type} {os : Collaborators W}
    (file_url local_path other_path : string) (self self' : Downloader W) :
  download_file file_url local_path self = (self', Some true) ->
  download_file file_url other_path self' = (self', Some true).
Proof.
  intros H. apply download_file_result in H as [Hiff _].
  assert (file_url ∈ downloaded_files self') as Hin by (apply Hiff; reflexivity).
  unfold download_file, try_except, attempt, bind, gets, ret.
  rewrite bool_decide_eq_true_2 by exact Hin. reflexivity.
Qed.

Lemma downloaded_url_witness :
  let self := idle "http://h/pub" [] ∅ in
  let result := download_file (os := mock site_two_names)
                  "http://h/pub/f.txt" "./out/pub/f.txt" self in
  result = (fst result, Some true)
  /\ download_file (os := mock site_two_names)
       "http://h/pub/f.txt" "./elsewhere" (fst result) = (fst result, Some true).
Proof.
  intros self result.
  assert (result = (fst result, Some true)) as H by (vm_compute; reflexivity).
  split; [exact H|].
  exact (downloaded_url_is_not_attempted_again (os := mock site_two_names)
           "http://h/pub/f.txt" "./out/pub/f.txt" "./elsewhere" self (fst result) H).
Defined.

(** X13: over a whole run the three sets only grow, whether the worker
    lives to the end or not, and the base URL and the output directory stay
    as they were. *)
Theorem tracker_sets_only_grow {W : Type} {parser : HtmlParser} {os : Collaborators W}
    (fuel : nat) (self self' : Downloader W) (r : option unit) :
  start_download fuel self = Some (self', r) ->
  downloaded_files self ⊆ downloaded_files self'
  /\ failed_downloads self ⊆ failed_downloads self'
  /\ scanned_dirs self ⊆ scanned_dirs self'
  /\ base_url self' = base_url self
  /\ output_dir self' = output_dir self.
Proof.
  unfold start_download.
  destruct (crawl_directory fuel (base_url self) self) as [[self1 r1]|] eqn:E;
    [|discriminate].
  apply crawl_directory_crawled in E as (visits & C & _ & _).
  pose proof (crawled_scanned _ _ _ C) as Hs.
  destruct C as (B1 & O1 & D1 & F1 & _).
  destruct r1 as [[]|].
  2:{ intros [= <- <-]. rewrite D1, F1. split_and!; [reflexivity | reflexivity | exact Hs | exact B1 | exact O1]. }
  intros [= H].
  unfold drain, bind, gets, modify in H.
  pose proof (worker_keeps_scanned _ _ _ _ H) as (S2 & B2 & O2).
  apply worker_effect in H as (HD & HF & _).
  cbn in S2, B2, O2, HD, HF.
  rewrite <- D1, <- F1, S2, B2, O2.
  split_and!; [exact HD | exact HF | exact Hs | exact B1 | exact O1].
Qed.

Lemma tracker_sets_witness :
  let self := idle "http://h/pub" [] ∅ in
  exists self' r,
    start_download (parser := mock_parser) (os := mock site_two_names) 3 self
      = Some (self', r)
    /\ downloaded_files self ⊆ downloaded_files self'
    /\ failed_downloads self ⊆ failed_downloads self'
    /\ scanned_dirs self ⊆ scanned_dirs self'
    /\ base_url self' = base_url self
    /\ output_dir self' = output_dir self.
Proof.
  intros self.
  destruct (start_download (parser := mock_parser) (os := mock site_two_names) 3 self)
    as [[self' r]|] eqn:E.
  - exists self', r. split; [reflexivity|].
    exact (tracker_sets_only_grow (parser := mock_parser) (os := mock site_two_names)
             3 self self' r E).
  - vm_compute in E. discriminate E.
Defined.

(** ** A second run over the disk of the first *)

Section Rerun.
Variable site : list (string * Response).

Implicit Types self : Downloader Disk.

Lemma download_known {W : Type} {os : Collaborators W} (u p : string)
    (self : Downloader W) :
  u ∈ downloaded_files self -> download_file u p self = (self, Some true).
Proof.
  intros Hin. unfold download_file, try_except, attempt, bind, gets, ret.
  rewrite bool_decide_eq_true_2 by exact Hin. reflexivity.
Qed.

(** Lines 79 to 82 on the mock. *)
Lemma mock_download_on_disk (u p : string) self :
  u ∉ downloaded_files self ->
  is_Some (world self !! p) ->
  download_file (os := mock site) u p self = (downloaded_add u self, Some true).
Proof.
  intros Hnew [c Hc].
  unfold download_file, try_except, attempt, bind, gets, call, modify, ret.
  rewrite bool_decide_eq_false_2 by exact Hnew.
  cbn [os_makedirs mock]. cbn [world set_world].
  rewrite (mock_exists_some _ _ _ _ Hc). rewrite set_world_same. reflexivity.
Qed.

Lemma try_except_bind {W : Type} {A B : Type}
    (m : M (W:=W) A) (k : A -> M (W:=W) B) (h : M (W:=W) B) (self : Downloader W) :
  try_except (bind m k) h self =
  match m self with
  | (s1, Some a) => try_except (k a) h s1
  | (s1, None) => h s1
  end.
Proof. unfold try_except, bind. destruct (m self) as [s1 [a|]]; reflexivity. Qed.

(** Lines 84 to 113 on the mock, for a target that is not on the disk:
    the download succeeds when the server's answer is [downloadable] and
    leaves the disk as it was when it is not. *)
Lemma mock_download_absent (u p : string) self :
  u ∉ downloaded_files self ->
  world self !! p = None ->
  exists self',
    download_file (os := mock site) u p self = (self', Some (downloadable site u))
    /\ downloaded_files self' =
         (if downloadable site u then {[u]} ∪ downloaded_files self
          else downloaded_files self)
    /\ world self' =
         (if downloadable site u then <[p := body site u]> (world self)
          else world self).
Proof.
  intros Hnew Hp.
  assert (forall s1 : Downloader Disk,
            (world s1 = world self \/ exists c, world s1 = <[p := c]> (world self)) ->
            downloaded_files s1 = downloaded_files self ->
            downloadable site u = false ->
            exists self',
              on_failure (os := mock site) u p s1 = (self', Some (downloadable site u))
              /\ downloaded_files self' =
                   (if downloadable site u then {[u]} ∪ downloaded_files self
                    else downloaded_files self)
              /\ world self' =
                   (if downloadable site u then <[p := body site u]> (world self)
                    else world self)) as Hfail.
  { intros s1 Hw Hd ->. rewrite on_failure_steps. destruct Hw as [Hw | [c Hw]]; rewrite Hw.
    - rewrite (mock_exists_none _ _ _ Hp).
      eexists. split; [reflexivity|]. cbn. auto.
    - rewrite (mock_exists_some _ _ _ c) by apply lookup_insert_eq.
      cbn [os_remove mock]. unfold Disk in *. rewrite lookup_insert_eq. cbn [fst snd].
      eexists. split; [reflexivity|]. cbn [world set_world failed_add downloaded_files].
      split; [exact Hd | apply delete_insert_id, Hp]. }
  unfold download_file, attempt.
  rewrite try_except_bind. unfold gets at 1.
  rewrite bool_decide_eq_false_2 by exact Hnew.
  rewrite try_except_bind. unfold call at 1. cbn [os_makedirs mock].
  rewrite (set_world_same self).
  rewrite try_except_bind. unfold gets at 1.
  rewrite (mock_exists_none _ _ _ Hp).
  unfold fetch. rewrite try_except_bind, get_effect. cbn [session_get mock fst snd].
  destruct (assoc site u) as [response|] eqn:Hresp.
  2:{ apply Hfail; [left; reflexivity | reflexivity |].
      unfold downloadable. rewrite Hresp. reflexivity. }
  assert (body site u = body_of (iter_content response)) as Hbody
    by (unfold body; rewrite Hresp; reflexivity).
  rewrite try_except_bind. unfold raise_for_status, raise, ret.
  destruct (Nat.leb 400 (status_code response) && Nat.ltb (status_code response) 600)
    eqn:Hstatus.
  { apply Hfail; [left; reflexivity | reflexivity |].
    unfold downloadable. rewrite Hresp, Hstatus. reflexivity. }
  assert (forall s1 : Downloader Disk,
            world s1 = world self -> downloaded_files s1 = downloaded_files self ->
            downloadable site u
            = negb (stream_error response)
              && Nat.ltb 0 (String.length (body_of (iter_content response))) ->
            exists self',
              try_except
                (bind (save (os := mock site) p response)
                   (fun _ =>
                      bind (exists_with_content (os := mock site) p)
                        (fun good =>
                           if good
                           then bind (modify (downloaded_add u)) (fun _ => ret true)
                           else raise)))
                (on_failure (os := mock site) u p) s1
              = (self', Some (downloadable site u))
              /\ downloaded_files self' =
                   (if downloadable site u then {[u]} ∪ downloaded_files self
                    else downloaded_files self)
              /\ world self' =
                   (if downloadable site u then <[p := body site u]> (world self)
                    else world self)) as Hsave.
  { intros s1 Hw Hd Hdl. rewrite try_except_bind, mock_save, Hw.
    destruct (stream_error response) eqn:Herr.
    - apply Hfail; [right; eexists; reflexivity | exact Hd | exact Hdl].
    - rewrite try_except_bind.
      rewrite (mock_exists_with_content _ p _ (body_of (iter_content response)))
        by (cbn; apply lookup_insert_eq).
      cbn [negb andb] in Hdl.
      destruct (Nat.ltb 0 (String.length (body_of (iter_content response)))) eqn:Hsize.
      + rewrite Hdl, Hbody. unfold try_except, bind, modify, ret.
        eexists. split; [reflexivity|]. cbn. rewrite Hd. auto.
      + unfold try_except, raise.
        apply Hfail; [right; eexists; reflexivity | exact Hd | exact Hdl]. }
  rewrite try_except_bind. unfold is_listing.
  destruct (Str.contains "text/html" (default "" (content_type response))) eqn:Hhtml.
  - unfold bind at 1, response_text, raise, ret.
    destruct (stream_error response) eqn:Herr.
    { apply Hfail; [left; reflexivity | reflexivity |].
      unfold downloadable. rewrite Hresp, Hstatus, Herr. reflexivity. }
    destruct (Str.contains "Index of" (text response)) eqn:Hindex.
    + assert (downloadable site u = false) as ->.
      { unfold downloadable. rewrite Hresp, Hstatus, Herr, Hhtml, Hindex. reflexivity. }
      unfold try_except, bind, modify, ret. eexists. split; [reflexivity|].
      cbn. auto.
    + apply Hsave; [reflexivity | reflexivity |].
      unfold downloadable. rewrite Hresp, Hstatus, Herr, Hhtml, Hindex. reflexivity.
  - unfold ret. apply Hsave; [reflexivity | reflexivity |].
    unfold downloadable. rewrite Hresp, Hstatus, Hhtml. cbn [negb andb].
    rewrite andb_true_r. reflexivity.
Qed.

(** One turn of the worker on the mock: it never raises, and it does one
    of three things. *)
Lemma mock_download_step (u p : string) self :
  exists self' b,
    download_file (os := mock site) u p self = (self', Some b)
    /\ ((u ∈ downloaded_files self /\ self' = self)
        \/ ((u ∉ downloaded_files self) /\ is_Some (world self !! p)
            /\ self' = downloaded_add u self)
        \/ ((u ∉ downloaded_files self) /\ world self !! p = None
            /\ downloaded_files self' =
                 (if downloadable site u then {[u]} ∪ downloaded_files self
                  else downloaded_files self)
            /\ world self' =
                 (if downloadable site u then <[p := body site u]> (world self)
                  else world self))).
Proof.
  destruct (decide (u ∈ downloaded_files self)) as [Hin|Hnew].
  { exists self, true. split; [apply download_known, Hin | auto]. }
  destruct (world self !! p) as [c|] eqn:Hp.
  - exists (downloaded_add u self), true.
    split; [apply mock_download_on_disk; [exact Hnew | rewrite Hp; eauto]|].
    right; left. eauto.
  - destruct (mock_download_absent u p self Hnew Hp) as (self' & E & HD & HW).
    exists self', (downloadable site u). split; [exact E|]. right; right. auto.
Qed.

Lemma mock_worker_cons (u p : string) (rest : list (string * string)) self s1 b :
  download_file (os := mock site) u p self = (s1, Some b) ->
  worker (os := mock site) ((u, p) :: rest) self = worker (os := mock site) rest s1.
Proof. intros E. cbn [worker]. unfold bind. rewrite E. reflexivity. Qed.

(** The worker never raises on the mock. *)
Lemma mock_worker_ends (items : list (string * string)) self :
  exists self', worker (os := mock site) items self = (self', Some tt).
Proof.
  revert self. induction items as [|[u p] rest IH]; intros self; [eexists; reflexivity|].
  destruct (mock_download_step u p self) as (s1 & b & E & _).
  rewrite (mock_worker_cons _ _ _ _ _ _ E). apply IH.
Qed.





(** *** The crawl on the mock does not look at the disk *)







End Rerun.


